(** * Multi-RAG pipeline: planner, critic, revision loop, answer generator,
      session memory and chunker, embedded from the Python sources.

    Conventions of the embedding.
    - A Python [str] is a Rocq [string] whose characters are ASCII code
      points (below 128).  On such strings [lower], [strip], [split],
      [capitalize] and the regular-expression classes [\s], [\w], [\b]
      below agree with Python's; characters from 128 on are treated as
      ordinary symbols (not white space, not word characters, no case).
    - A Python [int] is a [Z]; [len] is [Z.of_nat (String.length _)].
    - The generation service (the transformers pipeline) and the
      evaluation callback are effectful: they are state-passing functions
      over an arbitrary state type.
    - A [while] loop is a [Fixpoint] on fuel returning [None] when the fuel
      runs out; a separate theorem gives the fuel that always suffices.
    - [print] statements are left out. *)

From Stdlib Require Import ZArith QArith String Ascii List Lia Bool DecimalString.
From stdpp Require Import gmap strings.

Local Open Scope string_scope.
Local Open Scope Z_scope.

(* ===================================================================== *)
(** ** Python string primitives                                           *)
(* ===================================================================== *)

Module PyStr.

(** [str.isspace] on one ASCII character: TAB..CR, FS..US and SPACE. *)
Definition is_space (c : ascii) : bool :=
  let n := nat_of_ascii c in
  ((9 <=? n)%nat && (n <=? 13)%nat) || ((28 <=? n)%nat && (n <=? 32)%nat).

(** [\w] of the [re] module on ASCII: letters, digits and underscore. *)
Definition is_word (c : ascii) : bool :=
  let n := nat_of_ascii c in
  ((48 <=? n)%nat && (n <=? 57)%nat) || ((65 <=? n)%nat && (n <=? 90)%nat)
  || ((97 <=? n)%nat && (n <=? 122)%nat) || (n =? 95)%nat.

Definition lower_char (c : ascii) : ascii :=
  let n := nat_of_ascii c in
  if ((65 <=? n)%nat && (n <=? 90)%nat) then ascii_of_nat (n + 32) else c.

Definition upper_char (c : ascii) : ascii :=
  let n := nat_of_ascii c in
  if ((97 <=? n)%nat && (n <=? 122)%nat) then ascii_of_nat (n - 32) else c.

Fixpoint map_str (f : ascii -> ascii) (s : string) : string :=
  match s with
  | EmptyString => EmptyString
  | String c r => String (f c) (map_str f r)
  end.

(** [s.lower()] *)
Definition lower (s : string) : string := map_str lower_char s.

(** [len(s)] *)
Definition len (s : string) : Z := Z.of_nat (String.length s).

Definition is_empty (s : string) : bool :=
  match s with EmptyString => true | _ => false end.

(** [s.lstrip()], [s.rstrip()], [s.strip()] *)
Fixpoint lstrip (s : string) : string :=
  match s with
  | EmptyString => EmptyString
  | String c r => if is_space c then lstrip r else s
  end.

Fixpoint rstrip (s : string) : string :=
  match s with
  | EmptyString => EmptyString
  | String c r =>
      let r' := rstrip r in
      if is_space c && is_empty r' then EmptyString else String c r'
  end.

Definition strip (s : string) : string := lstrip (rstrip s).

(** [s.startswith(p)] *)
Fixpoint starts_with (p s : string) : bool :=
  match p, s with
  | EmptyString, _ => true
  | String a p', String b s' => if Ascii.eqb a b then starts_with p' s' else false
  | String _ _, EmptyString => false
  end.

(** [p in s] *)
Fixpoint contains (p s : string) : bool :=
  starts_with p s ||
  match s with
  | EmptyString => false
  | String _ r => contains p r
  end.

(** [s.split()]: maximal runs of non-space characters, in order. *)
Fixpoint split_ws_from (cur : string) (s : string) : list string :=
  match s with
  | EmptyString => if is_empty cur then [] else [cur]
  | String c r =>
      if is_space c
      then (if is_empty cur then split_ws_from EmptyString r
            else cur :: split_ws_from EmptyString r)
      else split_ws_from (cur +:+ String c EmptyString) r
  end.

Definition split_ws (s : string) : list string := split_ws_from EmptyString s.

(** [s.capitalize()] *)
Definition capitalize (s : string) : string :=
  match s with
  | EmptyString => EmptyString
  | String c r => String (upper_char c) (lower r)
  end.

(** [sep.join(l)] *)
Fixpoint join (sep : string) (l : list string) : string :=
  match l with
  | [] => EmptyString
  | [x] => x
  | x :: rest => x +:+ sep +:+ join sep rest
  end.

(** [str(n)] for a non-negative integer, as an f-string prints it. *)
Definition str_of_nat (n : nat) : string :=
  NilEmpty.string_of_uint (Nat.to_uint n).

(** Slice indices: [s[lo:hi]] first adds [len] to a negative index, then
    clamps into [0, len]. *)
Definition norm_index (n i : Z) : Z :=
  if i <? 0 then Z.max 0 (i + n) else Z.min i n.

(** [s[lo:hi]] *)
Definition slice (s : string) (lo hi : Z) : string :=
  let n := len s in
  let l := norm_index n lo in
  let h := norm_index n hi in
  substring (Z.to_nat l) (Z.to_nat (h - l)) s.

(** [s[:hi]] *)
Definition slice_to (s : string) (hi : Z) : string := slice s 0 hi.

(** The candidates [base + k - 1], ..., [base] of [rfind], highest first. *)
Fixpoint rfind_down (s sub : string) (base : Z) (k : nat) : Z :=
  match k with
  | O => -1
  | S k' =>
      let i := base + Z.of_nat k' in
      if starts_with sub (substring (Z.to_nat i) (String.length s) s)
      then i else rfind_down s sub base k'
  end.

(** [s.rfind(sub, start, end)]: the highest index [i] with
    [start <= i], [i + len(sub) <= end] and [s[i:i+len(sub)] == sub],
    indices normalised as for slices; [-1] when there is none. *)
Definition rfind (s sub : string) (start stop : Z) : Z :=
  let n := len s in
  let lo := norm_index n start in
  let hi := norm_index n stop in
  rfind_down s sub lo (Z.to_nat (hi - len sub - lo + 1)).

(** Every character is a space. *)
Fixpoint all_space (s : string) : bool :=
  match s with
  | EmptyString => true
  | String c r => is_space c && all_space r
  end.

(** The first, resp. last, character exists and is not a space. *)
Definition starts_nonspace (p : string) : bool :=
  match p with
  | EmptyString => false
  | String c _ => negb (is_space c)
  end.

Fixpoint ends_nonspace (p : string) : bool :=
  match p with
  | EmptyString => false
  | String c EmptyString => negb (is_space c)
  | String _ p' => ends_nonspace p'
  end.

End PyStr.

(* ===================================================================== *)
(** ** The fragment of [re] the planner uses                              *)
(* ===================================================================== *)

Module PyRe.
Import PyStr.

(** Patterns: literals, sequence, ordered alternative, greedy option,
    [\s+] and [\b]. *)
Inductive regex : Type :=
| Lit (s : string)
| Seq (r1 r2 : regex)
| Alt (r1 r2 : regex)
| Opt (r : regex)
| Spaces1
| WordB.

Definition word_opt (c : option ascii) : bool :=
  match c with Some a => is_word a | None => false end.

Definition head_opt (s : string) : option ascii :=
  match s with EmptyString => None | String c _ => Some c end.

(** Consume the literal [p] from [s]; gives the last character read and
    the rest. *)
Fixpoint eat_lit (p : string) (prev : option ascii) (s : string)
  : option (option ascii * string) :=
  match p with
  | EmptyString => Some (prev, s)
  | String a p' =>
      match s with
      | String b s' => if Ascii.eqb a b then eat_lit p' (Some b) s' else None
      | EmptyString => None
      end
  end.

(** Greedy [\s+] with backtracking: the longest run first. *)
Fixpoint eat_spaces {X} (s : string) (k : option ascii -> string -> option X)
  : option X :=
  match s with
  | EmptyString => None
  | String c r =>
      if is_space c then
        match eat_spaces r k with
        | Some x => Some x
        | None => k (Some c) r
        end
      else None
  end.

(** Backtracking matcher in continuation-passing style: [prev] is the
    character before the current position, [s] the remaining input, [k]
    what must match afterwards.  The first success in Python's search
    order is returned. *)
Fixpoint match_re {X} (r : regex) (prev : option ascii) (s : string)
    (k : option ascii -> string -> option X) : option X :=
  match r with
  | Lit p =>
      match eat_lit p prev s with
      | Some (prev', s') => k prev' s'
      | None => None
      end
  | Seq r1 r2 => match_re r1 prev s (fun prev' s' => match_re r2 prev' s' k)
  | Alt r1 r2 =>
      match match_re r1 prev s k with
      | Some x => Some x
      | None => match_re r2 prev s k
      end
  | Opt r1 =>
      match match_re r1 prev s k with
      | Some x => Some x
      | None => k prev s
      end
  | Spaces1 => eat_spaces s k
  | WordB =>
      if xorb (word_opt prev) (word_opt (head_opt s)) then k prev s else None
  end.

(** [pattern.match] at the current position: the number of characters
    the match consumes. *)
Definition match_here (r : regex) (prev : option ascii) (s : string)
  : option nat :=
  match_re r prev s
    (fun _ rest => Some (String.length s - String.length rest)%nat).

(** [re.search(r, s)] as a truth value. *)
Fixpoint search_from (r : regex) (prev : option ascii) (s : string) : bool :=
  match match_here r prev s with
  | Some _ => true
  | None =>
      match s with
      | EmptyString => false
      | String c rest => search_from r (Some c) rest
      end
  end.

Definition search (r : regex) (s : string) : bool := search_from r None s.

(** [re.split(r, s)] for a pattern without groups that never matches the
    empty string (every pattern of the planner starts with a literal).
    [skip] counts the characters of the current match still to drop and
    [cur] is the piece being collected. *)
Fixpoint split_from (r : regex) (skip : nat) (prev : option ascii)
    (cur : string) (s : string) : list string :=
  match skip with
  | S skip' =>
      match s with
      | EmptyString => [cur]
      | String c rest => split_from r skip' (Some c) cur rest
      end
  | O =>
      match s with
      | EmptyString => [cur]
      | String c rest =>
          match match_here r prev s with
          | Some (S n) => cur :: split_from r n (Some c) EmptyString rest
          | _ => split_from r O (Some c) (cur +:+ String c EmptyString) rest
          end
      end
  end.

Definition split (r : regex) (s : string) : list string :=
  split_from r O None EmptyString s.

End PyRe.

(* ===================================================================== *)
(** ** planner_agent.py                                                   *)
(* ===================================================================== *)

Module Planner.
Import PyStr PyRe.

Definition COMPOUND_WORDS : list string :=
  [ "and"; "compare"; "comparison"; "difference"; "differences";
    "versus"; "vs"; "contrast"; "advantages and disadvantages" ].

(** The dict [SECTION_MAP], in insertion order (the order [items()]
    iterates in). *)
Definition SECTION_MAP : list (string * string) :=
  [ ("methodology", "Find info about the methodology or methods used.");
    ("method", "Find info about the methodology or methods used.");
    ("approach", "Find info about the approach taken.");
    ("limitation", "Find info about the limitations.");
    ("limitations", "Find info about the limitations.");
    ("result", "Find info about the results.");
    ("results", "Find info about the results.");
    ("finding", "Find the key findings.");
    ("findings", "Find the key findings.");
    ("contribution", "Find the contributions of this work.");
    ("contributions", "Find the contributions of this work.");
    ("conclusion", "Find the conclusions.");
    ("abstract", "Find the abstract or summary.");
    ("introduction", "Find information from the introduction.");
    ("related work", "Find info about related work.");
    ("future work", "Find info about future work suggestions.");
    ("evaluation", "Find info about how they evaluated their work.");
    ("experiment", "Find info about the experiments.");
    ("dataset", "Find info about the dataset used.") ].

Record Complexity : Type := mkComplexity {
  is_complex : bool;
  reason : string
}.

Record Plan : Type := mkPlan {
  original_query : string;
  complexity : Complexity;
  is_compound : bool;
  subtasks : list string;
  reasoning : string
}.

(** The list [complex_phrases] local to [check_complexity]. *)
Definition complex_phrases : list string :=
  [ "compare"; "difference"; "advantages and disadvantages";
    "limitations"; "pros and cons"; "contrast" ].

(** [r'\b(and)\b'] and [r'\band\b']: the group changes nothing for
    [re.search] used as a condition. *)
Definition re_and : regex := Seq WordB (Seq (Lit "and") WordB).

(** [r'\b' + re.escape(word) + r'\b'] *)
Definition re_word (word : string) : regex := Seq WordB (Seq (Lit word) WordB).

(** [r'\b(?:and|vs\.?|versus|compared?\s+to|contrast\s+with)\b'] *)
Definition re_connector : regex :=
  Seq WordB
    (Seq (Alt (Lit "and")
         (Alt (Seq (Lit "vs") (Opt (Lit ".")))
         (Alt (Lit "versus")
         (Alt (Seq (Lit "compare") (Seq (Opt (Lit "d")) (Seq Spaces1 (Lit "to"))))
              (Seq (Lit "contrast") (Seq Spaces1 (Lit "with")))))))
         WordB).

(** The [for phrase in complex_phrases] loop: the first phrase found. *)
Fixpoint first_phrase (phrases : list string) (q : string) : option string :=
  match phrases with
  | [] => None
  | phrase :: rest =>
      if contains phrase q then Some phrase else first_phrase rest q
  end.

(** [f"Found '{phrase}' - query likely needs multiple retrieval steps"] *)
Definition found_reason (phrase : string) : string :=
  "Found '" +:+ phrase +:+ "' - query likely needs multiple retrieval steps".

Definition check_complexity (query : string) : Complexity :=
  let q := strip (lower query) in
  match first_phrase complex_phrases q with
  | Some phrase => mkComplexity true (found_reason phrase)
  | None =>
      if search re_and q
         && (let parts := split re_and q in
             (2 <=? Z.of_nat (length parts))
             && forallb (fun p => 5 <? len (strip p)) parts)
      then mkComplexity true "Query uses 'and' to connect multiple topics"
      else mkComplexity false "Simple single-topic query"
  end.

(** One step of the loop over [SECTION_MAP.items()]; the state is
    [(matched, seen_desc)]. *)
Definition section_step (q_lower : string)
    (st : list string * gset string) (kv : string * string)
  : list string * gset string :=
  let '(matched, seen_desc) := st in
  let '(keyword, desc) := kv in
  if contains keyword q_lower && negb (bool_decide (desc ∈ seen_desc))
  then ((matched ++ [desc])%list, seen_desc ∪ {[ desc ]})
  else (matched, seen_desc).

Definition matched_sections (q_lower : string) : list string :=
  fst (fold_left (section_step q_lower) SECTION_MAP ([], ∅)).

(** [f"Subtask {i+1}: {m}"] for [i, m] in [enumerate(l)], counting from
    [i]. *)
Fixpoint number_subtasks (f : string -> string) (i : nat) (l : list string)
  : list string :=
  match l with
  | [] => []
  | m :: rest =>
      ("Subtask " +:+ str_of_nat (i + 1) +:+ ": " +:+ f m)
        :: number_subtasks f (i + 1) rest
  end.

Definition plan_query (query : string) : Plan :=
  let q_lower := strip (lower query) in
  let cx := check_complexity query in
  if negb (is_complex cx) then
    let matched := matched_sections q_lower in
    let '(subtasks, reasoning) :=
      match matched with
      | _ :: _ =>
          (number_subtasks (fun m => m) 0 matched,
           "Simple query targeting " +:+ str_of_nat (length matched)
             +:+ " section(s).")
      | [] =>
          (["Subtask 1: " +:+ query], "Simple query, no decomposition needed.")
      end in
    mkPlan query cx (1 <? Z.of_nat (length subtasks)) subtasks reasoning
  else
    let is_compound := existsb (fun word => search (re_word word) q_lower)
                               COMPOUND_WORDS in
    let '(subtasks, reasoning) :=
      if is_compound then
        let parts :=
          map strip
            (filter (fun p => negb (is_empty (strip p)))
                    (split re_connector q_lower)) in
        if 1 <? Z.of_nat (length parts) then
          ((number_subtasks capitalize 0 parts
              ++ ["Subtask " +:+ str_of_nat (length parts + 1)
                    +:+ ": Combine and summarize findings."])%list,
           "Split into " +:+ str_of_nat (length parts)
             +:+ " parts + synthesis step.")
        else
          (["Subtask 1: " +:+ query],
           "Detected compound keyword but couldn't split meaningfully.")
      else
        (["Subtask 1: " +:+ query], "Marked complex but single-topic.") in
    mkPlan query cx (is_compound || (1 <? Z.of_nat (length subtasks)))
           subtasks reasoning.

(** The phrase list as the specification gives it. *)
Definition spec_complex_phrases : list string :=
  [ "compare"; "difference"; "versus"; "advantages and disadvantages";
    "limitations"; "pros and cons"; "contrast" ].

(** The query contains the phrase, case-insensitively. *)
Definition contains_ci (phrase query : string) : bool :=
  contains phrase (lower query).

End Planner.

(* ===================================================================== *)
(** ** Effects: calls into the generation service                         *)
(* ===================================================================== *)

Module Eff.

(** A computation that reads and updates a state of type [S]. *)
Definition M (S A : Type) : Type := S -> A * S.

Definition ret {S A} (a : A) : M S A := fun s => (a, s).

Definition bind {S A B} (m : M S A) (f : A -> M S B) : M S B :=
  fun s => let '(a, s') := m s in f a s'.

(** The generation service: [get_llm(model_name)(prompt)[0]["generated_text"]].
    The state holds whatever the service keeps between calls (the cached
    pipeline of [_llm] included). *)
Definition Service (S : Type) : Type := string -> string -> M S string.

End Eff.

Notation "'let*' x ':=' m 'in' k" := (Eff.bind m (fun x => k))
  (at level 10, x name, m at level 100, k at level 200).

(** The line feed of Python's ["\n"]. *)
Definition nl : string := String (ascii_of_nat 10) EmptyString.

(* ===================================================================== *)
(** ** answer_agent.py                                                    *)
(* ===================================================================== *)

Module AnswerAgent.
Import PyStr Eff.

Definition LLM_NAME : string := "google/flan-t5-base".

Record Answer : Type := mkAnswer {
  answer : string;
  prompt_used : string;
  model : string
}.

(** What [combine_answers] returns. *)
Record Combined : Type := mkCombined {
  c_answer : string;
  c_prompt_used : string;
  c_model : string;
  partial_answers : list string
}.

Definition make_prompt (question context : string) : string :=
  "Answer the following question based only on the provided context. "
  +:+ "If the answer is not in the context, say 'The context does not "
  +:+ "contain enough information to answer this.' Be specific." +:+ nl +:+ nl
  +:+ "Context:" +:+ nl +:+ context +:+ nl +:+ nl
  +:+ "Question: " +:+ question +:+ nl +:+ nl
  +:+ "Answer:".

Section WithService.
Context {S : Type} (llm : Service S).

Definition build_answer (question context model_name : string) : M S Answer :=
  let prompt := make_prompt question context in
  let prompt :=
    if 2000 <? len prompt
    then make_prompt question (slice_to context 1800)
    else prompt in
  let* out := llm model_name prompt in
  ret (mkAnswer (strip out) prompt model_name).

(** [f"Part {i+1}: {ans}"] for [i, ans] in [enumerate(l)], counting from
    [i]. *)
Fixpoint number_parts (i : nat) (l : list string) : list string :=
  match l with
  | [] => []
  | ans :: rest =>
      ("Part " +:+ str_of_nat (i + 1) +:+ ": " +:+ ans)
        :: number_parts (i + 1) rest
  end.

(** The prompt of [combine_answers]. *)
Definition combine_prompt (question : string) (partial_answers : list string)
  : string :=
  let combined := join nl (number_parts 0 partial_answers) in
  "Combine these partial answers into one clear response. "
  +:+ "Don't add information that isn't already there." +:+ nl +:+ nl
  +:+ combined +:+ nl +:+ nl
  +:+ "Original question: " +:+ question +:+ nl +:+ nl
  +:+ "Combined answer:".

Definition combine_answers (question : string) (partial_answers : list string)
    (model_name : string) : M S Combined :=
  let prompt := combine_prompt question partial_answers in
  let* out := llm model_name prompt in
  ret (mkCombined (strip out) prompt model_name partial_answers).

End WithService.
End AnswerAgent.

(* ===================================================================== *)
(** ** critic_agent.py                                                    *)
(* ===================================================================== *)

Module Critic.
Import PyStr Eff.

(** The dict [notes] keeps insertion order: an association list. *)
Record Heuristics : Type := mkHeuristics {
  h_notes : list (string * string);
  h_score : Z
}.

Record Evaluation : Type := mkEvaluation {
  score : Z;
  feedback : string;
  notes : list (string * string);
  llm_feedback : string;
  needs_revision : bool
}.

Definition no_info : list string :=
  [ "does not contain"; "not found"; "no information";
    "cannot answer"; "not mentioned"; "not available" ].

Definition stop : gset string :=
  list_to_set
    [ "the"; "a"; "an"; "is"; "are"; "was"; "were"; "in"; "on"; "at";
      "to"; "for"; "of"; "and"; "or"; "it"; "this"; "that"; "with"; "by" ].

(** [set(text.lower().split())] *)
Definition word_set (text : string) : gset string :=
  list_to_set (split_ws (lower text)).

(** [x < y] on ratios. *)
Definition Qltb (x y : Q) : bool := negb (Qle_bool y x).

(** [k / n] of two lengths, [n] positive: Python's true division, kept
    as the exact ratio.  The comparisons of such a ratio with [0.3] and
    [0.5] below give what binary64 gives as long as the lengths stay
    under 2^50. *)
Definition ratio (k n : nat) : Q := Z.of_nat k # Pos.of_nat n.

(** [n / d] rounded to the nearest integer, ties to even, for [n >= 0]
    and [d > 0]. *)
Definition round_half_even (n d : Z) : Z :=
  let q := n / d in
  let r := n mod d in
  if d <? 2 * r then q + 1
  else if (2 * r =? d) && Z.odd q then q + 1
  else q.

(** Binary64 rounding of a positive ratio [n / d]: the exponent [e] with
    [2^52 <= (n / d) / 2^e < 2^53], and the 53-bit significand, rounded to
    nearest, ties to even.  (Exponents stay far inside the range of the
    format for the quotients of lengths and percentages met here.) *)
Definition scale_num (n e : Z) : Z := n * 2 ^ Z.max 0 (- e).
Definition scale_den (d e : Z) : Z := d * 2 ^ Z.max 0 e.

Definition b64_exp (n d : Z) : Z :=
  let e0 := Z.log2 n - Z.log2 d - 52 in
  if scale_num n e0 / scale_den d e0 <? 2 ^ 52 then e0 - 1 else e0.

Definition b64_man (n d : Z) : Z :=
  let e := b64_exp n d in
  round_half_even (scale_num n e) (scale_den d e).

(** The float nearest to [x >= 0], as the exact value it stands for. *)
Definition b64 (x : Q) : Q :=
  let n := Qnum x in
  let d := Zpos (Qden x) in
  if n <=? 0 then 0%Q
  else
    let e := b64_exp n d in
    let m := b64_man n d in
    if 0 <=? e then (m * 2 ^ e) # 1 else m # Z.to_pos (2 ^ (- e)).

(** [f"{x:.0%}"] for a ratio [x >= 0] of two lengths: the float [x] (the
    rounded quotient) is multiplied by 100 as a float, and the product is
    printed rounded to an integer, ties to even. *)
Definition pct_str (x : Q) : string :=
  let p := b64 (b64 x * (100 # 1))%Q in
  str_of_nat (Z.to_nat (round_half_even (Qnum p) (Zpos (Qden p)))) +:+ "%".

(** The four checks of [heuristic_checks], each giving its note and the
    amount it takes off the score. *)

(* is the answer suspiciously short? *)
Definition length_check (answer : string) : string * Z :=
  if len answer <? 20
  then ("Very short answer (< 20 chars), probably incomplete", 3)
  else if len answer <? 50
  then ("Kinda short, might be missing detail", 1)
  else ("Length seems fine", 0).

(* does it say "not found" or similar? *)
Definition no_info_check (answer : string) : string * Z :=
  if existsb (fun p => contains p (lower answer)) no_info
  then ("Answer says info is missing - might need different retrieval", 2)
  else ("Doesn't flag missing info", 0).

(** [set(text.lower().split()) - stop] *)
Definition content_words (text : string) : gset string := word_set text ∖ stop.

(** The variable [overlap]. *)
Definition grounding_overlap (answer context : string) : Q :=
  let ans_words := content_words answer in
  let ctx_words := content_words context in
  if (0 <? size ans_words)%nat
  then ratio (size (ans_words ∩ ctx_words)) (size ans_words)
  else 0%Q.

(* grounding check - are the words in the answer actually in the context? *)
Definition grounding_check (answer context : string) : string * Z :=
  let overlap := grounding_overlap answer context in
  if Qltb overlap (3 # 10)
  then ("Low grounding (" +:+ pct_str overlap
          +:+ ") - possible hallucination", 3)
  else if Qltb overlap (1 # 2)
  then ("Moderate grounding (" +:+ pct_str overlap +:+ ")", 1)
  else ("Good grounding (" +:+ pct_str overlap +:+ ")", 0).

(** The variable [q_overlap]. *)
Definition relevance_overlap (answer question : string) : Q :=
  let q_words := content_words question in
  ratio (size (q_words ∩ word_set answer)) (Nat.max (size q_words) 1).

(* does the answer actually address the question? *)
Definition relevance_check (answer question : string) : string * Z :=
  let q_overlap := relevance_overlap answer question in
  if Qltb q_overlap (3 # 10)
  then ("Low relevance (" +:+ pct_str q_overlap
          +:+ ") - might not be answering the right question", 2)
  else ("Relevance okay (" +:+ pct_str q_overlap +:+ ")", 0).

Definition heuristic_checks (answer context question : string) : Heuristics :=
  let score := 10 in  (* start perfect, deduct for issues *)
  let '(n_length, d) := length_check answer in
  let score := score - d in
  let '(n_no_info, d) := no_info_check answer in
  let score := score - d in
  let '(n_grounding, d) := grounding_check answer context in
  let score := score - d in
  let '(n_relevance, d) := relevance_check answer question in
  let score := score - d in
  let score := Z.max 1 (Z.min 10 score) in
  mkHeuristics
    [ ("length", n_length); ("no_info", n_no_info);
      ("grounding", n_grounding); ("relevance", n_relevance) ]
    score.

(** The readable summary [evaluate] builds: one line per note, then the
    line of the service's feedback, joined by line feeds. *)
Definition feedback_summary (notes : list (string * string))
    (llm_feedback : string) : string :=
  let feedback_lines :=
    (map (fun '(name, note) => "  - " +:+ name +:+ ": " +:+ note) notes
     ++ [ "  - llm says: " +:+ llm_feedback ])%list in
  join nl feedback_lines.

Section WithService.
Context {S : Type} (llm : Service S).

(** Returns the value stored under ["llm_feedback"]. *)
Definition llm_eval (answer context question model_name : string)
  : M S string :=
  let prompt :=
    "Evaluate this answer for completeness and accuracy. "
    +:+ "Point out anything missing or wrong." +:+ nl +:+ nl
    +:+ "Question: " +:+ question +:+ nl +:+ nl
    +:+ "Context: " +:+ slice_to context 500 +:+ nl +:+ nl
    +:+ "Answer: " +:+ answer +:+ nl +:+ nl
    +:+ "Evaluation:" in
  let* out := llm model_name prompt in
  ret (strip out).

Definition evaluate (answer context question model_name : string)
  : M S Evaluation :=
  (* heuristics are the main signal *)
  let h := heuristic_checks answer context question in
  (* llm adds some qualitative feedback *)
  let* l := llm_eval answer context question model_name in
  let summary := feedback_summary (h_notes h) l in
  ret (mkEvaluation (h_score h) summary (h_notes h) l (h_score h <? 7)).

End WithService.
End Critic.

(* ===================================================================== *)
(** ** revision_agent.py                                                  *)
(* ===================================================================== *)

Module Revision.
Import PyStr Eff.

Definition MAX_ROUNDS : Z := 2.

Record Revised : Type := mkRevised {
  revised : string;
  original : string;
  feedback_used : string
}.

(** One entry of [history]. *)
Record Round : Type := mkRound {
  round : Z;
  r_answer : string;
  r_score : Z;
  r_feedback : string
}.

Record LoopResult : Type := mkLoopResult {
  final_answer : string;
  rounds : Z;
  history : list Round;
  got_better : bool;
  score_before : Z;
  score_after : Z
}.

(** [history[0]["score"]] and [history[-1]["score"]]; the history is never
    empty where they are read (Python would raise on an empty list). *)
Definition first_score (h : list Round) : Z :=
  match h with r :: _ => r_score r | [] => 0 end.

Definition last_score (h : list Round) : Z :=
  match List.rev h with r :: _ => r_score r | [] => 0 end.

Section WithService.
Context {S : Type} (llm : Service S).

(** The callback [eval_fn(current, context, question, model_name)]. *)
Variable eval_fn : string -> string -> string -> string -> M S Critic.Evaluation.

Definition revise (original_ans feedback context question model_name : string)
  : M S Revised :=
  let prompt :=
    "Improve this answer based on the feedback below. "
    +:+ "Stay grounded in the context, don't make stuff up." +:+ nl +:+ nl
    +:+ "Question: " +:+ question +:+ nl +:+ nl
    +:+ "Context: " +:+ slice_to context 500 +:+ nl +:+ nl
    +:+ "Original answer: " +:+ original_ans +:+ nl +:+ nl
    +:+ "Feedback: " +:+ feedback +:+ nl +:+ nl
    +:+ "Improved answer:" in
  let* out := llm model_name prompt in
  ret (mkRevised (strip out) original_ans feedback).

(** The variables the [while] loop updates. *)
Record LoopVars : Type := mkLoopVars {
  v_ev : Critic.Evaluation;
  v_rounds_done : Z;
  v_current : string;
  v_history : list Round
}.

(** [while ev["needs_revision"] and rounds_done < max_rounds: ...] *)
Fixpoint revision_while (fuel : nat) (context question model_name : string)
    (max_rounds : Z) (v : LoopVars) : M S (option LoopVars) :=
  if Critic.needs_revision (v_ev v) && (v_rounds_done v <? max_rounds) then
    match fuel with
    | O => ret None
    | Datatypes.S fuel' =>
        let rounds_done := v_rounds_done v + 1 in
        let* rev := revise (v_current v) (Critic.feedback (v_ev v))
                      context question model_name in
        let current := revised rev in
        let* ev := eval_fn current context question model_name in
        let history :=
          (v_history v
           ++ [ mkRound rounds_done current (Critic.score ev)
                        (Critic.feedback ev) ])%list in
        revision_while fuel' context question model_name max_rounds
          (mkLoopVars ev rounds_done current history)
    end
  else ret (Some v).

Definition run_revision_loop (fuel : nat)
    (answer context question model_name : string) (max_rounds : Z)
  : M S (option LoopResult) :=
  let current := answer in
  (* first evaluation *)
  let* ev := eval_fn current context question model_name in
  let history :=
    [ mkRound 0 current (Critic.score ev) (Critic.feedback ev) ] in
  let* r := revision_while fuel context question model_name max_rounds
         (mkLoopVars ev 0 current history) in
  match r with
  | None => ret None
  | Some v =>
      let first := first_score (v_history v) in
      let last := last_score (v_history v) in
      ret (Some (mkLoopResult (v_current v) (v_rounds_done v) (v_history v)
                              (first <? last) first last))
  end.

End WithService.
End Revision.

(* ===================================================================== *)
(** ** memory.py                                                          *)
(* ===================================================================== *)

Module Memory.
Import PyStr.

Section WithChunks.
(** What the caller stores under ["chunks_used"]. *)
Context {ChunkRef : Type}.

Record Entry : Type := mkEntry {
  time : string;
  query : string;
  subtasks : list string;
  chunks_used : list ChunkRef;
  first_answer : string;
  critic_score : Z;
  feedback : string;
  final_answer : string;
  revisions : Z
}.

(** The object state: [self.log]. *)
Record Memory : Type := mkMemory { log : list Entry }.

(** [Memory()] *)
Definition init : Memory := mkMemory [].

(** [x or []] for an optional list. *)
Definition or_nil {A} (x : option (list A)) : list A :=
  match x with Some l => l | None => [] end.

(** [e["final_answer"] or e["first_answer"]] *)
Definition or_str (a b : string) : string := if is_empty a then b else a.

(** [save]; [now] is what [datetime.now().isoformat()] returns. *)
Definition save (now : string) (self : Memory) (query : string)
    (subtasks : option (list string)) (chunks_used : option (list ChunkRef))
    (answer : string) (critic_score : Z) (feedback final_answer : string)
    (revisions : Z) : Memory :=
  let entry :=
    mkEntry now query (or_nil subtasks) (or_nil chunks_used) answer
            critic_score feedback final_answer revisions in
  mkMemory (log self ++ [entry])%list.

(** [l[start:]] on a list, the index normalised as for every slice. *)
Definition list_slice_from {A} (l : list A) (start : Z) : list A :=
  skipn (Z.to_nat (norm_index (Z.of_nat (length l)) start)) l.

Definition format_entry (e : Entry) : string :=
  "Q: " +:+ query e +:+ nl +:+ "A: " +:+ or_str (final_answer e) (first_answer e).

Definition get_recent (self : Memory) (n : Z) : string :=
  let recent :=
    if n <=? Z.of_nat (length (log self))
    then list_slice_from (log self) (- n)
    else log self in
  match recent with
  | [] => "No previous queries."
  | _ :: _ => join (nl +:+ nl) (map format_entry recent)
  end.

Definition get_all_chunks (self : Memory) : list ChunkRef :=
  concat (map chunks_used (log self)).

Definition count (self : Memory) : Z := Z.of_nat (length (log self)).

Definition last (self : Memory) : option Entry := List.last (map Some (log self)) None.

Definition clear (self : Memory) : Memory := mkMemory [].

End WithChunks.

Arguments Entry : clear implicits.
Arguments Memory : clear implicits.

End Memory.

(* ===================================================================== *)
(** ** chunking.py                                                        *)
(* ===================================================================== *)

Module Chunking.
Import PyStr.

Record Chunk : Type := mkChunk {
  text : string;
  chunk_id : Z;
  start : Z;
  stop : Z   (* the key ["end"] *)
}.

(** The sentence-boundary search of one iteration: the new [end]. *)
Definition snap_end (text : string) (pos stop : Z) : Z :=
  if stop <? len text then
    let bp := rfind text ". " pos stop in
    let bp := if bp =? -1 then rfind text nl pos stop else bp in
    let bp := if bp =? -1 then rfind text " " pos stop else bp in
    if negb (bp =? -1) && (pos <? bp) then bp + 1 else stop
  else stop.

(** [while pos < len(text): ...] with the loop variables [pos], [idx] and
    [result]. *)
Fixpoint chunk_while (fuel : nat) (text : string) (chunk_size overlap : Z)
    (pos idx : Z) (result : list Chunk) : option (list Chunk) :=
  if pos <? len text then
    match fuel with
    | O => None
    | S fuel' =>
        let stop := snap_end text pos (pos + chunk_size) in
        let piece := strip (slice text pos stop) in
        let '(result, idx) :=
          if negb (is_empty piece)
          then ((result ++ [mkChunk piece idx pos stop])%list, idx + 1)
          else (result, idx) in
        chunk_while fuel' text chunk_size overlap
                    (pos + (chunk_size - overlap)) idx result
    end
  else Some result.

Definition chunk_text (fuel : nat) (text : string) (chunk_size overlap : Z)
  : option (list Chunk) :=
  if is_empty text || is_empty (strip text) then Some []
  else chunk_while fuel text chunk_size overlap 0 0 [].

End Chunking.

(* ===================================================================== *)
(** ** retrieval.py                                                       *)
(* ===================================================================== *)

Module Retrieval.
Import PyStr.

(** Distances are the exact values of the floats the index returns; the
    comparison with the threshold and the rounding to four decimals are
    then exact. *)
Definition DISTANCE_THRESHOLD : Q := 3 # 2.

(** [x > y] on distances. *)
Definition Qgtb (x y : Q) : bool := negb (Qle_bool x y).

(** One item of the list [find_top_chunks] returns; [warning] is the
    optional key ["warning"]. *)
Record Found : Type := mkFound {
  chunk : Chunking.Chunk;
  score : Q;
  rank : Z;
  warning : option string
}.

(** [l[i]]: a negative index counts from the end, an index out of range
    raises [IndexError] ([None]). *)
Definition py_index {A} (l : list A) (i : Z) : option A :=
  let n := Z.of_nat (length l) in
  if (0 <=? i) && (i <? n) then l !! Z.to_nat i
  else if (- n <=? i) && (i <? 0) then l !! Z.to_nat (i + n)
  else None.

(** The loop over [enumerate(zip(dists[0], idxs[0]))]; [rank] is the
    enumeration index of the first row of [rows] and [found] the list built
    so far. *)
Fixpoint find_loop (chunk_list : list Chunking.Chunk) (rank : Z)
    (rows : list (Q * Z)) (found : list Found) : option (list Found) :=
  match rows with
  | [] => Some found
  | (dist, i) :: rest =>
      if i =? -1 then find_loop chunk_list (rank + 1) rest found
      else
        match py_index chunk_list i with
        | None => None
        | Some c =>
            let item :=
              mkFound c dist (rank + 1)
                (if Qgtb dist DISTANCE_THRESHOLD
                 then Some "Low similarity - might not be relevant"
                 else None) in
            find_loop chunk_list (rank + 1) rest (found ++ [item])%list
        end
  end.

(** [find_top_chunks]; [search query k] stands for the rows
    [zip(dists[0], idxs[0])] of [index.search(model.encode([query]), k)]. *)
Definition find_top_chunks (search : string -> Z -> list (Q * Z))
    (query : string) (chunk_list : list Chunking.Chunk) (top_k : Z)
  : option (list Found) :=
  let rows := search query (Z.min top_k (Z.of_nat (length chunk_list))) in
  find_loop chunk_list 0 rows [].

(** [str(n)] for an integer. *)
Definition str_of_Z (n : Z) : string := NilZero.string_of_int (Z.to_int n).

(** The digits of [n], padded with zeros on the left to four of them. *)
Definition pad4 (n : nat) : string :=
  let d := str_of_nat n in
  string_of_list_ascii (repeat "0"%char (4 - String.length d)) +:+ d.

(** [f"{x:.4f}"]: four decimals, rounded to nearest, ties to even. *)
Definition fmt4 (x : Q) : string :=
  let n := Z.abs (Qnum x) * 10000 in
  let d := Zpos (Qden x) in
  let q := n / d in
  let r := n mod d in
  let p := if d <? 2 * r then q + 1
           else if (2 * r =? d) && Z.odd q then q + 1
           else q in
  (if Qnum x <? 0 then "-" else "")
  +:+ str_of_nat (Z.to_nat (p / 10000)) +:+ "."
  +:+ pad4 (Z.to_nat (p mod 10000)).

(** [f"[Chunk {r['rank']}, dist={r['score']:.4f}]"] *)
Definition header (r : Found) : string :=
  "[Chunk " +:+ str_of_Z (rank r) +:+ ", dist=" +:+ fmt4 (score r) +:+ "]".

Definition build_context (found_chunks : list Found) : string :=
  join (nl +:+ nl)
       (map (fun r => header r +:+ nl +:+ Chunking.text (chunk r)) found_chunks).

End Retrieval.

(* ===================================================================== *)
(** ** pdf_loader.py                                                      *)
(* ===================================================================== *)

Module PdfLoader.
Import PyStr.

Record PdfInfo : Type := mkPdfInfo {
  text : string;
  num_pages : Z;
  num_chars : Z;
  pages : list string
}.

(** [txt if txt else ""]: [None] and the empty string both give [""]. *)
Definition text_or_empty (txt : option string) : string :=
  match txt with
  | Some t => t
  | None => EmptyString
  end.

(** [load_pdf]; [extracted] is what [page.extract_text()] gives for the
    pages of [PdfReader(file_path)], in order. *)
Definition load_pdf (extracted : list (option string)) : PdfInfo :=
  let pages := map text_or_empty extracted in
  let full_text := join nl pages in
  mkPdfInfo full_text (Z.of_nat (length extracted)) (len full_text) pages.

End PdfLoader.

(* ===================================================================== *)
(** ** Observing the calls                                                *)
(* ===================================================================== *)

(** The code under study is run against a service and a callback wrapped
    so that every call leaves a trace in an extra component of the state;
    the wrapped functions otherwise behave as the ones they wrap. *)
Module Observe.
Import Eff.

(** Numbers of calls made so far. *)
Record Counters : Type := mkCounters {
  n_eval : nat;   (* calls of the evaluation callback *)
  n_gen : nat     (* calls of the generation service *)
}.

Definition counted_llm {S} (llm : Service S) : Service (S * Counters) :=
  fun model_name prompt '(s, c) =>
    let '(out, s') := llm model_name prompt s in
    (out, (s', mkCounters (n_eval c) (Datatypes.S (n_gen c)))).

Definition counted_eval {S}
    (eval_fn : string -> string -> string -> string -> M S Critic.Evaluation)
  : string -> string -> string -> string -> M (S * Counters) Critic.Evaluation :=
  fun answer context question model_name '(s, c) =>
    let '(ev, s') := eval_fn answer context question model_name s in
    (ev, (s', mkCounters (Datatypes.S (n_eval c)) (n_gen c))).

(** The prompts sent so far, oldest first. *)
Definition logged_llm {S} (llm : Service S) : Service (S * list string) :=
  fun model_name prompt '(s, sent) =>
    let '(out, s') := llm model_name prompt s in
    (out, (s', (sent ++ [prompt])%list)).

(** Forgetting the counters of an outcome. *)
Definition erase {S A} (r : A * (S * Counters)) : A * S :=
  (fst r, fst (snd r)).

(** What holds of the loop variables of [run_revision_loop] and of the
    counters each time the loop condition is tested: one history entry per
    evaluation, one revision per completed round, and every entry numbered
    by its position. *)
Definition loop_inv (v : Revision.LoopVars) (c : Counters) : Prop :=
  Revision.v_rounds_done v = Z.of_nat (n_gen c) /\
  n_eval c = Datatypes.S (n_gen c) /\
  length (Revision.v_history v) = n_eval c /\
  (forall (i : nat) r,
      Revision.v_history v !! i = Some r -> Revision.round r = Z.of_nat i).

(** What holds of the loop variables whenever the loop condition is
    tested, in terms of the history alone: its first entry is round 0 with
    the initial answer; its last entry records the current round, answer
    and evaluation; every earlier entry comes from an evaluation that asked
    for a revision.  [P] is any property of the callback's results. *)
Definition loop_shape (P : Critic.Evaluation -> Prop) (answer0 : string)
    (v : Revision.LoopVars) : Prop :=
  exists pre,
    Revision.v_history v
      = (pre ++ [ Revision.mkRound (Revision.v_rounds_done v)
                    (Revision.v_current v)
                    (Critic.score (Revision.v_ev v))
                    (Critic.feedback (Revision.v_ev v)) ])%list /\
    Revision.v_rounds_done v = Z.of_nat (length pre) /\
    Forall (fun r => exists ev,
                P ev /\ Critic.needs_revision ev = true /\
                Revision.r_score r = Critic.score ev) pre /\
    P (Revision.v_ev v) /\
    exists r0 rest,
      Revision.v_history v = r0 :: rest /\
      Revision.r_answer r0 = answer0 /\ Revision.round r0 = 0.

(** A string of [n] letters, for the examples. *)
Definition filler (n : nat) : string := string_of_list_ascii (repeat "x"%char n).

(** A service without state that always answers the same text. *)
Definition const_llm (text : string) : Service unit :=
  fun _ _ s => (text, s).

End Observe.

(* ===================================================================== *)
(** ** Reference definitions, written after the specification            *)
(* ===================================================================== *)

Module Reference.
Import PyStr.

(** The last [k] entries of a list, oldest first. *)
Definition last_n {A} (k : nat) (l : list A) : list A :=
  skipn (length l - k) l.

(** "[recent(n)] returns the last [min(n, length)] entries formatted as
    alternating question/answer text, oldest of the window first". *)
Definition spec_recent {C} (l : list (Memory.Entry C)) (n : Z) : string :=
  join (nl +:+ nl)
       (map Memory.format_entry
            (last_n (Z.to_nat (Z.min n (Z.of_nat (length l)))) l)).

(** What holds of the chunk at position [i] of a result of [chunk_text]:
    its id is its position; its window starts inside the text, at a
    multiple of the step, and is at most [chunk_size] long; its text is the
    stripped window and is not empty. *)
Definition chunk_ok (source : string) (chunk_size step : Z) (i : nat)
    (c : Chunking.Chunk) : Prop :=
  Chunking.chunk_id c = Z.of_nat i /\
  0 <= Chunking.start c < len source /\
  (step | Chunking.start c) /\
  Chunking.start c < Chunking.stop c <= Chunking.start c + chunk_size /\
  Chunking.text c = strip (slice source (Chunking.start c) (Chunking.stop c)) /\
  Chunking.text c <> EmptyString.

(** Later chunks start later. *)
Definition starts_increasing (l : list Chunking.Chunk) : Prop :=
  forall (i j : nat) ci cj,
    l !! i = Some ci -> l !! j = Some cj -> (i < j)%nat ->
    Chunking.start ci < Chunking.start cj.

(** The synthesis step of a decomposed plan, numbered [n]. *)
Definition synthesis_step (n : nat) : string :=
  "Subtask " +:+ str_of_nat n +:+ ": Combine and summarize findings.".

(** The sentence the prompt of [make_prompt] tells the model to give
    when the context does not hold the answer. *)
Definition NO_INFO_SENTENCE : string :=
  "The context does not contain enough information to answer this.".

(** [sum(len(p) for p in l)] *)
Definition total_len (l : list string) : Z :=
  fold_right (fun p acc => len p + acc) 0 l.

End Reference.

(* ===================================================================== *)
(** ** Facts about the string primitives                                  *)
(* ===================================================================== *)

Module PyStrFacts.
Import PyStr.

Lemma lower_char_space c : is_space c = true -> lower_char c = c.
Proof.
  destruct c as [[] [] [] [] [] [] [] []]; vm_compute; congruence.
Qed.

Lemma all_space_lower s : all_space s = true -> lower s = s.
Proof.
  induction s as [|c r IH]; simpl; [reflexivity|].
  intros [Hc Hr]%andb_prop. unfold lower in *; simpl.
  rewrite lower_char_space, IH; auto.
Qed.

Lemma all_space_rstrip s : all_space s = true -> rstrip s = EmptyString.
Proof.
  induction s as [|c r IH]; simpl; [reflexivity|].
  intros [Hc Hr]%andb_prop. rewrite IH, Hc; auto.
Qed.

Lemma all_space_strip_lower s :
  all_space s = true -> strip (lower s) = EmptyString.
Proof.
  intros H. rewrite all_space_lower by assumption.
  unfold strip. now rewrite all_space_rstrip.
Qed.

Lemma contains_nil_l s : contains EmptyString s = true.
Proof. destruct s; reflexivity. Qed.

Lemma contains_nil_r p : contains p EmptyString = true -> p = EmptyString.
Proof. destruct p; simpl; congruence. Qed.

Lemma contains_cons p c s :
  contains p s = true -> contains p (String c s) = true.
Proof. intros H. simpl. rewrite H. apply orb_true_r. Qed.

(** *** [lstrip] keeps, and does not create, occurrences *)

Lemma contains_lstrip p s :
  starts_nonspace p = true ->
  contains p s = true -> contains p (lstrip s) = true.
Proof.
  intros Hp. induction s as [|c r IH]; [auto|].
  cbn [lstrip]. destruct (is_space c) eqn:Hc; [|auto].
  cbn [contains]. intros [H|H]%orb_prop; [|auto].
  destruct p as [|a p']; [discriminate|]. simpl in H, Hp.
  destruct (Ascii.eqb_spec a c) as [->|]; [|discriminate].
  rewrite Hc in Hp. discriminate.
Qed.

Lemma contains_lstrip_inv p s :
  contains p (lstrip s) = true -> contains p s = true.
Proof.
  induction s as [|c r IH]; [auto|].
  cbn [lstrip]. destruct (is_space c); [|auto].
  intros H. apply contains_cons. auto.
Qed.

(** *** [rstrip] keeps, and does not create, occurrences *)

Lemma starts_with_rstrip p s :
  ends_nonspace p = true ->
  starts_with p s = true -> starts_with p (rstrip s) = true.
Proof.
  revert s. induction p as [|a p' IH]; [discriminate|].
  intros [|c r] Hp H; [discriminate|].
  cbn [starts_with] in H.
  destruct (Ascii.eqb_spec a c) as [->|]; [|discriminate].
  cbn [rstrip]. destruct p' as [|b p''].
  - simpl in Hp. apply negb_true_iff in Hp. rewrite Hp. simpl.
    now rewrite Ascii.eqb_refl.
  - assert (Hr : starts_with (String b p'') (rstrip r) = true)
      by (apply IH; assumption).
    destruct (rstrip r) as [|d t]; [discriminate|].
    rewrite andb_false_r. cbn [starts_with]. now rewrite Ascii.eqb_refl.
Qed.

Lemma contains_rstrip p s :
  ends_nonspace p = true ->
  contains p s = true -> contains p (rstrip s) = true.
Proof.
  intros Hp. induction s as [|c r IH]; [auto|].
  cbn [contains]. intros [H|H]%orb_prop.
  - apply (starts_with_rstrip _ _ Hp) in H.
    destruct (rstrip (String c r)); simpl in *; rewrite H; reflexivity.
  - specialize (IH H). cbn [rstrip].
    destruct (rstrip r) as [|d t] eqn:Hr.
    + apply contains_nil_r in IH. subst p. discriminate.
    + rewrite andb_false_r. now apply contains_cons.
Qed.

Lemma starts_with_rstrip_inv p s :
  starts_with p (rstrip s) = true -> starts_with p s = true.
Proof.
  revert s. induction p as [|a p' IH]; [reflexivity|].
  intros [|c r]; [auto|]. cbn [rstrip].
  destruct (is_space c && is_empty (rstrip r)); [discriminate|].
  cbn [starts_with]. destruct (Ascii.eqb a c); auto.
Qed.

Lemma contains_rstrip_inv p s :
  contains p (rstrip s) = true -> contains p s = true.
Proof.
  induction s as [|c r IH]; [auto|]. cbn [rstrip].
  destruct (is_space c && is_empty (rstrip r)).
  - intros ->%contains_nil_r. apply contains_nil_l.
  - cbn [contains]. intros [H|H]%orb_prop.
    + assert (Hs : starts_with p (String c r) = true).
      { destruct p as [|a p']; [reflexivity|]. cbn [starts_with] in *.
        destruct (Ascii.eqb a c); [|discriminate].
        now apply starts_with_rstrip_inv. }
      now rewrite Hs.
    + rewrite (IH H). apply orb_true_r.
Qed.

(** A phrase with non-space ends occurs in [s.strip()] exactly when it
    occurs in [s]. *)
Lemma contains_strip p s :
  starts_nonspace p = true -> ends_nonspace p = true ->
  contains p (strip s) = contains p s.
Proof.
  intros H1 H2. unfold strip.
  destruct (contains p s) eqn:Hc.
  - now apply contains_lstrip, contains_rstrip.
  - destruct (contains p (lstrip (rstrip s))) eqn:Hd; [|reflexivity].
    apply contains_lstrip_inv, contains_rstrip_inv in Hd. congruence.
Qed.

End PyStrFacts.

(* ===================================================================== *)
(** ** The planner                                                        *)
(* ===================================================================== *)

Module PlannerSpec.
Import PyStr PyStrFacts Planner.

Lemma first_phrase_found ps q p :
  In p ps -> contains p q = true ->
  exists p', first_phrase ps q = Some p' /\ In p' ps /\ contains p' q = true.
Proof.
  induction ps as [|a ps IH]; [intros []|].
  intros Hin Hc. cbn [first_phrase].
  destruct (contains a q) eqn:Ha.
  - exists a. repeat split; [now left | assumption].
  - destruct Hin as [->|Hin]; [congruence|].
    destruct (IH Hin Hc) as (p' & ? & ? & ?).
    exists p'. repeat split; [assumption | now right | assumption].
Qed.

Lemma complex_phrases_nonspace p :
  In p complex_phrases ->
  starts_nonspace p = true /\ ends_nonspace p = true.
Proof.
  unfold complex_phrases. simpl.
  intros H; repeat (destruct H as [<-|H]; [split; reflexivity|]).
  destruct H.
Qed.

(** C3, the counterexample: "versus" is one of the phrases the
    specification lists, the query below contains it, and
    [check_complexity] answers that the query is simple. *)
Lemma check_complexity_versus_simple :
  ~ (forall query p,
        In p spec_complex_phrases -> contains_ci p query = true ->
        is_complex (check_complexity query) = true).
Proof.
  intros H.
  specialize (H "Transformers versus CNNs" "versus").
  assert (Hin : In "versus" spec_complex_phrases) by (simpl; tauto).
  specialize (H Hin eq_refl). vm_compute in H. discriminate.
Qed.

(** C3, as the code has it: a query that contains, case-insensitively, one
    of the six phrases of [complex_phrases] ("compare", "difference",
    "advantages and disadvantages", "limitations", "pros and cons",
    "contrast") is marked complex, and the reason quotes the first phrase
    of that list, in its order, that the query contains. *)
Theorem check_complexity_phrase query p :
  In p complex_phrases -> contains_ci p query = true ->
  exists p',
    In p' complex_phrases /\ contains_ci p' query = true /\
    first_phrase complex_phrases (lower query) = Some p' /\
    check_complexity query = mkComplexity true (found_reason p').
Proof.
  unfold contains_ci. intros Hin Hc.
  destruct (first_phrase_found _ _ _ Hin Hc) as (p' & Hf & Hin' & Hc').
  exists p'. repeat split; try assumption.
  unfold check_complexity.
  assert (Hs : first_phrase complex_phrases (strip (lower query)) = Some p').
  { revert Hf. generalize (lower query) as q. intros q.
    assert (Hall : forall a, In a complex_phrases ->
                     contains a (strip q) = contains a q).
    { intros a Ha. destruct (complex_phrases_nonspace a Ha).
      now apply contains_strip. }
    revert Hall. generalize complex_phrases as ps.
    induction ps as [|a ps IH]; [discriminate|].
    intros Hall. cbn [first_phrase].
    rewrite (Hall a) by now left.
    destruct (contains a q); [auto|].
    apply IH. intros b Hb. apply Hall. now right. }
  rewrite Hs. reflexivity.
Qed.

Lemma check_complexity_phrase_witness :
  exists p',
    In p' complex_phrases /\
    contains_ci p' "What are the LIMITATIONS, in contrast?" = true /\
    first_phrase complex_phrases (lower "What are the LIMITATIONS, in contrast?")
      = Some p' /\
    check_complexity "What are the LIMITATIONS, in contrast?"
      = mkComplexity true (found_reason p').
Proof.
  apply (check_complexity_phrase
           "What are the LIMITATIONS, in contrast?" "contrast").
  - simpl. tauto.
  - reflexivity.
Defined.

(** C5: the scenario of the specification.  The query is complex (it
    contains "limitations"), compound (it contains the word "and"), and is
    split at "and" into two parts followed by the synthesis step. *)
Theorem plan_query_methodology_and_limitations :
  let plan := plan_query "Explain the methodology and limitations." in
  is_complex (complexity plan) = true /\
  is_compound plan = true /\
  subtasks plan =
    [ "Subtask 1: Explain the methodology";
      "Subtask 2: Limitations.";
      "Subtask 3: Combine and summarize findings." ].
Proof. vm_compute. repeat split. Qed.

(** C7: an empty or whitespace-only query is planned without any failure
    (the function is total) as a simple, non-compound query with the single
    subtask ["Subtask 1: " + query]. *)
Theorem plan_query_blank query :
  all_space query = true ->
  plan_query query =
    mkPlan query (mkComplexity false "Simple single-topic query") false
           [ "Subtask 1: " +:+ query ]
           "Simple query, no decomposition needed.".
Proof.
  intros H. unfold plan_query, check_complexity.
  rewrite (all_space_strip_lower _ H). reflexivity.
Qed.

Lemma plan_query_blank_witness :
  plan_query (" " +:+ nl) =
    mkPlan (" " +:+ nl) (mkComplexity false "Simple single-topic query") false
           [ "Subtask 1: " +:+ (" " +:+ nl) ]
           "Simple query, no decomposition needed.".
Proof. apply (plan_query_blank (" " +:+ nl)). reflexivity. Defined.

End PlannerSpec.

(* ===================================================================== *)
(** ** The critic                                                         *)
(* ===================================================================== *)

Module CriticSpec.
Import PyStr Eff Critic.

Lemma heuristic_score_clamped answer context question :
  1 <= h_score (heuristic_checks answer context question) <= 10.
Proof.
  unfold heuristic_checks.
  destruct (length_check answer), (no_info_check answer),
    (grounding_check answer context), (relevance_check answer question).
  cbn [h_score]. lia.
Qed.

(** What [evaluate] returns, whatever the service answers. *)
Lemma evaluate_result {S} (llm : Service S) answer context question model s :
  exists l,
    fst (evaluate llm answer context question model s) =
      let h := heuristic_checks answer context question in
      mkEvaluation (h_score h) (feedback_summary (h_notes h) l) (h_notes h) l
                   (h_score h <? 7).
Proof.
  unfold evaluate, llm_eval, bind, ret.
  destruct (llm model _ s) as [out s']. exists (strip out). reflexivity.
Qed.

(** C2: the score of [evaluate] is an integer between 1 and 10, and
    [needs_revision] is exactly [score < 7]; this holds for every answer,
    context and question and for every behaviour of the service. *)
Theorem evaluate_score_range {S} (llm : Service S)
    answer context question model s :
  let ev := fst (evaluate llm answer context question model s) in
  1 <= score ev <= 10 /\ needs_revision ev = (score ev <? 7).
Proof.
  destruct (evaluate_result llm answer context question model s) as [l ->].
  cbn [score needs_revision]. split; [apply heuristic_score_clamped | reflexivity].
Qed.

(** An answer without any non-stop token gets ratio 0, not an error: here
    every deduction applies and the score is 2. *)
Example heuristic_checks_only_stop_words :
  grounding_overlap "the" "the" = 0%Q /\
  h_score (heuristic_checks "the" "the" "") = 2.
Proof. vm_compute. split; reflexivity. Qed.

(** The scenario of the specification: score 5, revision needed. *)
Example heuristic_checks_scenario :
  h_score (heuristic_checks "It uses something."
             "The methodology uses transformers with attention mechanisms."
             "What is the methodology?") = 5.
Proof. vm_compute. reflexivity. Qed.

(** C8: the score, the notes and [needs_revision] of two evaluations of
    the same answer, context and question agree, whatever the two services
    (their states, their outputs, the model names) are; the service's text
    only enters [llm_feedback] and, through it, the summary. *)
Theorem evaluate_score_ignores_service {S1 S2}
    (llm1 : Service S1) (llm2 : Service S2)
    answer context question model1 model2 s1 s2 :
  let ev1 := fst (evaluate llm1 answer context question model1 s1) in
  let ev2 := fst (evaluate llm2 answer context question model2 s2) in
  score ev1 = score ev2 /\
  needs_revision ev1 = needs_revision ev2 /\
  notes ev1 = notes ev2 /\
  feedback ev1 = feedback_summary (notes ev1) (llm_feedback ev1) /\
  feedback ev2 = feedback_summary (notes ev2) (llm_feedback ev2).
Proof.
  destruct (evaluate_result llm1 answer context question model1 s1) as [l1 ->].
  destruct (evaluate_result llm2 answer context question model2 s2) as [l2 ->].
  cbn. repeat split.
Qed.

(** *** Grounding of an answer against itself *)

Lemma Zpos_of_nat n : (0 < n)%nat -> Zpos (Pos.of_nat n) = Z.of_nat n.
Proof. intros H. rewrite <- positive_nat_Z, Nat2Pos.id; lia. Qed.

Lemma ratio_self n : (0 < n)%nat -> (ratio n n == 1)%Q.
Proof.
  intros H. unfold ratio, Qeq. cbn [Qnum Qden].
  rewrite Zpos_of_nat by assumption. lia.
Qed.

Lemma Qltb_proper x y a : (x == y)%Q -> Qltb x a = Qltb y a.
Proof.
  intros H. unfold Qltb. f_equal.
  destruct (Qle_bool a x) eqn:E1, (Qle_bool a y) eqn:E2; try reflexivity.
  - apply Qle_bool_iff in E1. rewrite H in E1. apply Qle_bool_iff in E1.
    congruence.
  - apply Qle_bool_iff in E2. rewrite <- H in E2. apply Qle_bool_iff in E2.
    congruence.
Qed.

(** The percentage is that of the float: 23/40 is held as a float just
    below 0.575, whose product with 100 is just below 57.5. *)
Example pct_str_of_float_quotient :
  pct_str (ratio 23 40) = "57%" /\ pct_str (ratio 1 8) = "12%" /\
  pct_str (ratio 2 3) = "67%" /\ pct_str 0 = "0%".
Proof. vm_compute. repeat split. Qed.

Lemma scale_self_quotient N :
  0 < N -> scale_num N (-52) / scale_den N (-52) = 2 ^ 52
           /\ scale_num N (-52) mod scale_den N (-52) = 0.
Proof.
  intros H. unfold scale_num, scale_den.
  change (Z.max 0 (- -52)) with 52. change (Z.max 0 (-52)) with 0.
  rewrite Z.pow_0_r, Z.mul_1_r, (Z.mul_comm N).
  split; [apply Z.div_mul|apply Z.mod_mul]; lia.
Qed.

(** A quotient [n / n] is the float 1. *)
Lemma b64_ratio_self n :
  (0 < n)%nat -> b64 (ratio n n) = 2 ^ 52 # Z.to_pos (2 ^ 52).
Proof.
  intros H. unfold b64, ratio. cbn [Qnum Qden].
  rewrite Zpos_of_nat by assumption.
  assert (HN : 0 < Z.of_nat n) by lia. revert HN.
  generalize (Z.of_nat n) as N. intros N HN.
  replace (N <=? 0) with false by (symmetry; apply Z.leb_gt; lia).
  destruct (scale_self_quotient N HN) as [Hq Hr].
  assert (He : b64_exp N N = -52).
  { unfold b64_exp. replace (Z.log2 N - Z.log2 N - 52) with (-52) by lia.
    rewrite Hq. reflexivity. }
  assert (Hm : b64_man N N = 2 ^ 52).
  { unfold b64_man. rewrite He. unfold round_half_even. rewrite Hq, Hr.
    replace (scale_den N (-52) <? 2 * 0) with false.
    - replace (2 * 0 =? scale_den N (-52)) with false; [reflexivity|].
      symmetry. apply Z.eqb_neq. unfold scale_den.
      change (Z.max 0 (-52)) with 0. rewrite Z.pow_0_r. lia.
    - symmetry. apply Z.ltb_ge. unfold scale_den.
      change (Z.max 0 (-52)) with 0. rewrite Z.pow_0_r. lia. }
  rewrite He, Hm. reflexivity.
Qed.

Lemma pct_str_ratio_self n : (0 < n)%nat -> pct_str (ratio n n) = "100%".
Proof.
  intros H. unfold pct_str. rewrite b64_ratio_self by assumption.
  vm_compute. reflexivity.
Qed.

Lemma grounding_overlap_self answer :
  (0 < size (content_words answer))%nat ->
  grounding_overlap answer answer = ratio (size (content_words answer))
                                          (size (content_words answer)).
Proof.
  intros Hpos. unfold grounding_overlap.
  assert (E : content_words answer ∩ content_words answer
               = content_words answer).
  { apply set_eq. intros x. rewrite elem_of_intersection. tauto. }
  rewrite E. apply Nat.ltb_lt in Hpos. now rewrite Hpos.
Qed.

(** C4, the counterexample: the answer "the" is identical to its context
    and has no token outside the stop words; its ratio is 0 and the
    grounding check takes 3 off the score. *)
Lemma grounding_identical_stop_word :
  ~ (forall answer,
       (grounding_overlap answer answer == 1)%Q /\
       snd (grounding_check answer answer) = 0).
Proof.
  intros H. destruct (H "the") as [_ Hd]. vm_compute in Hd. discriminate.
Qed.

(** C4, as the code has it: an answer identical to its context that has at
    least one token outside the stop words has grounding ratio 1 (100%),
    gets the note "Good grounding (100%)" and no grounding deduction. *)
Theorem grounding_identical_answer answer question :
  (0 < size (content_words answer))%nat ->
  (grounding_overlap answer answer == 1)%Q /\
  grounding_check answer answer = ("Good grounding (100%)", 0) /\
  In ("grounding", "Good grounding (100%)")
     (h_notes (heuristic_checks answer answer question)).
Proof.
  intros Hpos. pose proof (grounding_overlap_self answer Hpos) as Ho.
  assert (H1 : (grounding_overlap answer answer == 1)%Q)
    by (rewrite Ho; now apply ratio_self).
  assert (Hc : grounding_check answer answer = ("Good grounding (100%)", 0)).
  { unfold grounding_check.
    rewrite !(Qltb_proper _ _ _ H1). cbn [Qltb Qle_bool Qnum Qden].
    change (negb _) with false. cbn iota.
    rewrite Ho, pct_str_ratio_self by assumption. reflexivity. }
  repeat split; try assumption.
  unfold heuristic_checks. rewrite Hc.
  destruct (length_check answer), (no_info_check answer),
    (relevance_check answer question).
  cbn [h_notes]. right. right. left. reflexivity.
Qed.

Lemma grounding_identical_answer_witness :
  (grounding_overlap "Transformers use attention." "Transformers use attention."
     == 1)%Q /\
  grounding_check "Transformers use attention." "Transformers use attention."
    = ("Good grounding (100%)", 0) /\
  In ("grounding", "Good grounding (100%)")
     (h_notes (heuristic_checks "Transformers use attention."
                 "Transformers use attention." "What do transformers use?")).
Proof.
  apply (grounding_identical_answer "Transformers use attention."
           "What do transformers use?").
  vm_compute. lia.
Defined.

(** Without such a token the ratio is 0 and 3 is taken off, identical
    context or not. *)
Lemma grounding_no_content_words answer context :
  size (content_words answer) = 0%nat ->
  grounding_overlap answer context = 0%Q /\
  grounding_check answer context =
    ("Low grounding (0%) - possible hallucination", 3).
Proof.
  intros He.
  assert (Ho : grounding_overlap answer context = 0%Q).
  { unfold grounding_overlap. rewrite He. reflexivity. }
  split; [exact Ho|]. unfold grounding_check. rewrite Ho. reflexivity.
Qed.

End CriticSpec.

(* ===================================================================== *)
(** ** The revision loop                                                  *)
(* ===================================================================== *)

Module RevisionSpec.
Import PyStr Eff Revision Observe.

Section Loop.
Context {S : Type} (llm : Service S).
Variable eval_fn : string -> string -> string -> string -> M S Critic.Evaluation.
Variables context question model : string.
Variable max_rounds : Z.

Let cllm := counted_llm llm.
Let ceval := counted_eval eval_fn.

Lemma revise_counted original_ans feedback s c :
  exists rev s',
    revise cllm original_ans feedback context question model (s, c)
    = (rev, (s', mkCounters (n_eval c) (Datatypes.S (n_gen c)))).
Proof.
  unfold revise, bind, ret, cllm, counted_llm.
  destruct (llm model _ s) as [out s']. eauto.
Qed.

Lemma eval_counted answer s c :
  exists ev s',
    ceval answer context question model (s, c)
    = (ev, (s', mkCounters (Datatypes.S (n_eval c)) (n_gen c))).
Proof.
  unfold ceval, counted_eval.
  destruct (eval_fn answer context question model s) as [ev s']. eauto.
Qed.

(** The loop exits within [max_rounds - rounds_done] rounds, and keeps the
    invariant. *)
Lemma revision_while_inv fuel : forall v s c,
  loop_inv v c ->
  v_rounds_done v <= max_rounds ->
  (Z.to_nat (max_rounds - v_rounds_done v) <= fuel)%nat ->
  exists v' s' c',
    revision_while cllm ceval fuel context question model max_rounds v (s, c)
    = (Some v', (s', c')) /\
    loop_inv v' c' /\ v_rounds_done v' <= max_rounds.
Proof.
  induction fuel as [|fuel IH]; intros v s c Hinv Hle Hfuel.
  - cbn [revision_while].
    destruct (Critic.needs_revision (v_ev v)); cbn [andb].
    + replace (v_rounds_done v <? max_rounds) with false
        by (symmetry; apply Z.ltb_ge; lia).
      unfold ret. eauto 6.
    + unfold ret. eauto 6.
  - cbn [revision_while].
    destruct (Critic.needs_revision (v_ev v) && (v_rounds_done v <? max_rounds))
      eqn:Hguard; [|unfold ret; eauto 6].
    apply andb_prop in Hguard as [_ Hlt]. apply Z.ltb_lt in Hlt.
    unfold bind at 1.
    destruct (revise_counted (v_current v) (Critic.feedback (v_ev v)) s c)
      as (rev & s1 & ->).
    unfold bind at 1.
    destruct (eval_counted (revised rev) s1
                (mkCounters (n_eval c) (Datatypes.S (n_gen c))))
      as (ev & s2 & ->).
    apply IH; cbn [v_rounds_done v_history]; [|lia|lia].
    destruct Hinv as (Hr & He & Hl & Hidx).
    unfold loop_inv. cbn [v_rounds_done v_history n_eval n_gen].
    repeat split.
    + lia.
    + lia.
    + rewrite length_app. cbn [length]. lia.
    + intros i r [Hi|[Hi Hlast]]%lookup_app_Some; [auto|].
      destruct (i - length (v_history v))%nat as [|k] eqn:Hk; [|discriminate].
      injection Hlast as <-. cbn [round]. lia.
Qed.

(** C1: with a round cap [max_rounds >= 0] and fuel for that many rounds,
    [run_revision_loop] returns a result for every evaluation callback and
    every service (reaching the cap is an ordinary return).  It has then
    called the callback at least once and at most [max_rounds + 1] times,
    once more than the service, which it has called, for the revisions, at
    most [max_rounds] times.  The history has one entry per evaluation:
    entry 0 exists and has round index 0, and for every [i] below the
    number of evaluations the entry at position [i] exists and has round
    index [i], so the indices go up by 1. *)
Theorem run_revision_loop_bounds fuel answer s :
  0 <= max_rounds ->
  (Z.to_nat max_rounds <= fuel)%nat ->
  exists res s' c,
    run_revision_loop cllm ceval fuel answer context question model max_rounds
                      (s, mkCounters 0 0)
    = (Some res, (s', c)) /\
    (1 <= n_eval c)%nat /\
    n_eval c = Datatypes.S (n_gen c) /\
    Z.of_nat (n_eval c) <= max_rounds + 1 /\
    Z.of_nat (n_gen c) <= max_rounds /\
    length (history res) = n_eval c /\
    rounds res = Z.of_nat (n_gen c) /\
    (exists r0, history res !! 0%nat = Some r0 /\ round r0 = 0) /\
    (forall i : nat, (i < n_eval c)%nat ->
       exists r, history res !! i = Some r /\ round r = Z.of_nat i) /\
    (forall (i : nat) r, history res !! i = Some r -> round r = Z.of_nat i).
Proof.
  intros Hm Hfuel. unfold run_revision_loop.
  unfold bind at 1.
  destruct (eval_counted answer s (mkCounters 0 0)) as (ev & s1 & ->).
  cbn [n_eval n_gen]. unfold bind at 1.
  set (v0 := mkLoopVars ev 0 answer _).
  destruct (revision_while_inv fuel v0 s1 (mkCounters 1 0))
    as (v' & s' & c' & -> & Hinv & Hle).
  - unfold loop_inv, v0. cbn. repeat split.
    intros [|i] r; cbn; [|discriminate].
    intros [= <-]. reflexivity.
  - cbn. lia.
  - cbn. rewrite Z.sub_0_r. exact Hfuel.
  - destruct Hinv as (Hr & He & Hl & Hidx).
    assert (Hent : forall i : nat, (i < n_eval c')%nat ->
              exists r, v_history v' !! i = Some r /\ round r = Z.of_nat i).
    { intros i Hi. destruct (lookup_lt_is_Some_2 (v_history v') i) as [r Hri];
        [lia|]. exists r. split; [exact Hri|exact (Hidx i r Hri)]. }
    unfold ret. eexists _, s', c'. split; [reflexivity|].
    cbn [history rounds].
    split; [lia|]. split; [exact He|]. split; [lia|]. split; [lia|].
    split; [exact Hl|]. split; [exact Hr|].
    split; [apply (Hent 0%nat); lia|]. split; [exact Hent|exact Hidx].
Qed.

(** The counters only observe: without them the loop computes the same
    result and the same state. *)
Lemma revision_while_erase fuel : forall v s c,
  revision_while llm eval_fn fuel context question model max_rounds v s
  = erase (revision_while cllm ceval fuel context question model max_rounds
             v (s, c)).
Proof.
  induction fuel as [|fuel IH]; intros v s c; cbn [revision_while];
    destruct (Critic.needs_revision (v_ev v) && (v_rounds_done v <? max_rounds));
    try reflexivity.
  unfold revise, cllm, counted_llm, ceval, counted_eval.
  unfold bind, ret. cbn beta.
  match goal with
  | |- context [llm model ?prompt s] =>
      destruct (llm model prompt s) as [out s1]
  end.
  cbn [revised].
  destruct (eval_fn (strip out) context question model s1) as [ev s2].
  apply IH.
Qed.

Lemma run_revision_loop_erase fuel answer s c :
  run_revision_loop llm eval_fn fuel answer context question model max_rounds s
  = erase (run_revision_loop cllm ceval fuel answer context question model
             max_rounds (s, c)).
Proof.
  unfold run_revision_loop, bind at 1 3. unfold ceval at 1, counted_eval.
  destruct (eval_fn answer context question model s) as [ev s1].
  unfold bind.
  rewrite (revision_while_erase fuel _ s1
             (mkCounters (Datatypes.S (n_eval c)) (n_gen c))).
  destruct (revision_while cllm ceval fuel context question model max_rounds _ _)
    as [[v'|] [s' c']]; reflexivity.
Qed.

(** A cap below zero is no cap on the first evaluation: it is made, and
    nothing else. *)
Lemma run_revision_loop_negative_cap fuel answer s :
  max_rounds < 0 ->
  exists res s' c,
    run_revision_loop cllm ceval fuel answer context question model max_rounds
                      (s, mkCounters 0 0)
    = (Some res, (s', c)) /\
    n_eval c = 1%nat /\ n_gen c = 0%nat /\ rounds res = 0.
Proof.
  intros Hneg. unfold run_revision_loop. unfold bind at 1.
  destruct (eval_counted answer s (mkCounters 0 0)) as (ev & s1 & ->).
  unfold bind.
  assert (Hw : forall v sc,
             v_rounds_done v = 0 ->
             revision_while cllm ceval fuel context question model max_rounds
                            v sc = (Some v, sc)).
  { intros v sc Hv. destruct fuel; cbn [revision_while];
      replace (v_rounds_done v <? max_rounds) with false
        by (symmetry; apply Z.ltb_ge; lia);
      rewrite andb_false_r; reflexivity. }
  rewrite Hw by reflexivity. unfold ret.
  eexists _, _, _. split; [reflexivity|]. cbn. repeat split.
Qed.

(** A callback that always asks for a revision drives the loop to the cap:
    the bounds above are reached, and the loop still returns. *)
Lemma revision_while_cap fuel : forall v s c,
  (forall a c' q mo st,
      Critic.needs_revision (fst (eval_fn a c' q mo st)) = true) ->
  Critic.needs_revision (v_ev v) = true ->
  v_rounds_done v <= max_rounds ->
  (Z.to_nat (max_rounds - v_rounds_done v) <= fuel)%nat ->
  exists v' sc',
    revision_while cllm ceval fuel context question model max_rounds v (s, c)
    = (Some v', sc') /\
    v_rounds_done v' = max_rounds.
Proof.
  induction fuel as [|fuel IH]; intros v s c Hall Hnr Hle Hfuel.
  - cbn [revision_while]. rewrite Hnr. cbn [andb].
    replace (v_rounds_done v <? max_rounds) with false
      by (symmetry; apply Z.ltb_ge; lia).
    unfold ret. eexists _, _. split; [reflexivity|lia].
  - cbn [revision_while]. rewrite Hnr. cbn [andb].
    destruct (v_rounds_done v <? max_rounds) eqn:Hlt.
    + apply Z.ltb_lt in Hlt. unfold bind at 1.
      destruct (revise_counted (v_current v) (Critic.feedback (v_ev v)) s c)
        as (rev & s1 & ->).
      unfold bind at 1. unfold ceval at 1, counted_eval.
      pose proof (Hall (revised rev) context question model s1) as Hn.
      destruct (eval_fn (revised rev) context question model s1) as [ev s2].
      apply IH; cbn [v_ev v_rounds_done]; auto; lia.
    + apply Z.ltb_ge in Hlt. unfold ret.
      eexists _, _. split; [reflexivity|lia].
Qed.

End Loop.

Lemma run_revision_loop_bounds_witness :
  exists res s' c,
    run_revision_loop
      (counted_llm (const_llm "It uses transformers."))
      (counted_eval (Critic.evaluate (const_llm "Too vague.")))
      2 "It uses something."
      "The methodology uses transformers with attention mechanisms."
      "What is the methodology?" AnswerAgent.LLM_NAME MAX_ROUNDS
      (tt, mkCounters 0 0)
    = (Some res, (s', c)) /\
    (1 <= n_eval c)%nat /\
    n_eval c = Datatypes.S (n_gen c) /\
    Z.of_nat (n_eval c) <= MAX_ROUNDS + 1 /\
    Z.of_nat (n_gen c) <= MAX_ROUNDS /\
    length (history res) = n_eval c /\
    rounds res = Z.of_nat (n_gen c) /\
    (exists r0, history res !! 0%nat = Some r0 /\ round r0 = 0) /\
    (forall i : nat, (i < n_eval c)%nat ->
       exists r, history res !! i = Some r /\ round r = Z.of_nat i) /\
    (forall (i : nat) r, history res !! i = Some r -> round r = Z.of_nat i).
Proof.
  apply (run_revision_loop_bounds
           (const_llm "It uses transformers.")
           (Critic.evaluate (const_llm "Too vague."))
           "The methodology uses transformers with attention mechanisms."
           "What is the methodology?" AnswerAgent.LLM_NAME MAX_ROUNDS
           2 "It uses something." tt).
  - unfold MAX_ROUNDS. lia.
  - vm_compute. lia.
Defined.

End RevisionSpec.

(* ===================================================================== *)
(** ** The answer generator                                               *)
(* ===================================================================== *)

Module AnswerSpec.
Import PyStr Eff AnswerAgent Observe.

Lemma substring_0_min k s :
  substring 0 (Nat.min k (String.length s)) s = substring 0 k s.
Proof.
  revert k. induction s as [|c r IH]; intros [|k]; cbn; try reflexivity.
  now rewrite IH.
Qed.

(** [context[:k]] is the first [k] characters of the context (all of it
    when it is shorter). *)
Lemma slice_to_first_chars s (k : nat) :
  slice_to s (Z.of_nat k) = substring 0 k s.
Proof.
  unfold slice_to, slice, norm_index, len.
  replace (0 <? 0) with false by reflexivity.
  replace (Z.of_nat k <? 0) with false by (symmetry; apply Z.ltb_ge; lia).
  rewrite Z.min_l by lia. rewrite Z.sub_0_r. cbn [Z.to_nat].
  rewrite <- Nat2Z.inj_min, Nat2Z.id. apply substring_0_min.
Qed.

(** C9: [build_answer] sends exactly one prompt to the service and returns
    for every question and context.  When the assembled prompt is longer
    than 2000 characters the prompt sent (and recorded in [prompt_used]) is
    rebuilt from the first 1800 characters of the context; when it has 2000
    characters or fewer the assembled prompt itself is sent. *)
Theorem build_answer_prompt_budget {S} (llm : Service S)
    question context model s :
  let prompt := make_prompt question context in
  let short := make_prompt question (substring 0 1800 context) in
  exists ans s' out,
    build_answer (logged_llm llm) question context model (s, [])
      = (ans, (s', [prompt_used ans])) /\
    answer ans = strip out /\
    llm model (prompt_used ans) s = (out, s') /\
    (2000 < len prompt -> prompt_used ans = short) /\
    (len prompt <= 2000 -> prompt_used ans = prompt).
Proof.
  intros prompt short. unfold build_answer, bind, ret, logged_llm.
  fold prompt.
  change 1800 with (Z.of_nat 1800).
  rewrite slice_to_first_chars. fold short.
  destruct (llm model (if 2000 <? len prompt then short else prompt) s)
    as [out s'] eqn:Hllm.
  exists (mkAnswer (strip out) (if 2000 <? len prompt then short else prompt)
                  model), s', out.
  cbn [prompt_used answer app].
  split; [reflexivity|]. split; [reflexivity|]. split; [exact Hllm|].
  split; intros H.
  - apply Z.ltb_lt in H. now rewrite H.
  - apply Z.ltb_ge in H. now rewrite H.
Qed.

Lemma build_answer_prompt_budget_witness :
  (exists ans,
      fst (build_answer (logged_llm (const_llm " A CNN. ")) "What was used?"
             (filler 2500) LLM_NAME (tt, []))
        = ans /\
      answer ans = "A CNN." /\
      prompt_used ans
        = make_prompt "What was used?" (substring 0 1800 (filler 2500))) /\
  (exists ans,
      fst (build_answer (logged_llm (const_llm " A CNN. ")) "What was used?"
             "The study uses a CNN trained on ImageNet." LLM_NAME (tt, []))
        = ans /\
      prompt_used ans
        = make_prompt "What was used?"
            "The study uses a CNN trained on ImageNet.").
Proof.
  split.
  - destruct (build_answer_prompt_budget (const_llm " A CNN. ")
                "What was used?" (filler 2500) LLM_NAME tt)
      as (ans & s' & out & Hrun & Hans & Hllm & Hlong & _).
    exists ans. rewrite Hrun. split; [reflexivity|]. split.
    + rewrite Hans. injection Hllm as <- _. reflexivity.
    + apply Hlong. vm_compute. reflexivity.
  - destruct (build_answer_prompt_budget (const_llm " A CNN. ")
                "What was used?" "The study uses a CNN trained on ImageNet."
                LLM_NAME tt)
      as (ans & s' & out & Hrun & _ & _ & _ & Hshort).
    exists ans. rewrite Hrun. split; [reflexivity|].
    apply Hshort. vm_compute. discriminate.
Defined.

End AnswerSpec.

(* ===================================================================== *)
(** ** The session memory                                                 *)
(* ===================================================================== *)

Module MemorySpec.
Import PyStr Memory Reference.

Section WithChunks.
Context {C : Type}.
Implicit Types (mem : Memory C) (e : Entry C).

Lemma skipn_nonempty {A} (k : nat) (l : list A) :
  (k < length l)%nat -> skipn k l <> [].
Proof.
  intros H E. apply (f_equal (@length A)) in E.
  rewrite length_skipn in E. cbn in E. lia.
Qed.

(** The window [get_recent] formats, for [n >= 1]. *)
Lemma recent_window mem n :
  1 <= n ->
  (if n <=? Z.of_nat (length (log mem))
   then list_slice_from (log mem) (- n) else log mem)
  = last_n (Z.to_nat (Z.min n (Z.of_nat (length (log mem))))) (log mem).
Proof.
  intros Hn. unfold list_slice_from, last_n, norm_index.
  destruct (n <=? Z.of_nat (length (log mem))) eqn:Hle.
  - apply Z.leb_le in Hle.
    replace (- n <? 0) with true by (symmetry; apply Z.ltb_lt; lia).
    f_equal. lia.
  - apply Z.leb_gt in Hle. rewrite Z.min_r by lia.
    rewrite Nat2Z.id, Nat.sub_diag. reflexivity.
Qed.

(** C6, as the code has it: for [n >= 1], [get_recent(n)] of a log that is
    not empty is the text of its last [min(n, count())] entries, oldest
    first, each as "Q: query / A: final answer, or first answer when the
    final one is empty", separated by blank lines; of an empty log it is
    the text "No previous queries.". *)
Theorem get_recent_last_entries mem n :
  1 <= n ->
  get_recent mem n =
    match log mem with
    | [] => "No previous queries."
    | _ :: _ => spec_recent (log mem) n
    end.
Proof.
  intros Hn. unfold get_recent, spec_recent.
  rewrite (recent_window mem n Hn).
  destruct (log mem) as [|e l] eqn:Hlog; [reflexivity|].
  set (w := last_n _ _).
  assert (Hw : w <> []).
  { unfold w, last_n. apply skipn_nonempty. cbn [length]. lia. }
  destruct w; [congruence | reflexivity].
Qed.

(** After two [save] calls, [count()] is 2, [get_recent(1)] shows the
    second entry only, and [clear()] brings [count()] back to 0. *)
Lemma two_saves_then_recent
    t1 q1 st1 (ch1 : option (list C)) a1 sc1 fb1 fa1 rv1
    t2 q2 st2 (ch2 : option (list C)) a2 sc2 fb2 fa2 rv2 :
  let mem := save t2 (save t1 init q1 st1 ch1 a1 sc1 fb1 fa1 rv1)
                  q2 st2 ch2 a2 sc2 fb2 fa2 rv2 in
  count mem = 2 /\
  get_recent mem 1 = "Q: " +:+ q2 +:+ nl +:+ "A: " +:+ or_str fa2 a2 /\
  count (clear mem) = 0.
Proof. cbn. repeat split. Qed.

End WithChunks.

(** C6, the counterexamples: with one entry in the log, [get_recent(0)]
    shows that entry although the last [min(0, 1) = 0] entries are none;
    and on an empty log [get_recent(1)] is a notice, not the empty text of
    zero entries. *)
Lemma get_recent_not_last_min :
  let e := mkEntry "t" "What is the methodology?" [] (@nil nat)
                   "Uses a CNN approach." 8 "" "" 0 in
  get_recent (mkMemory [e]) 0 <> spec_recent [e] 0 /\
  get_recent (@init nat) 1 <> spec_recent (@nil (Entry nat)) 1.
Proof. split; vm_compute; discriminate. Qed.

Lemma get_recent_last_entries_witness :
  get_recent
    (save "t2" (save "t1" (@init nat) "What is the methodology?" None None
                     "Uses a CNN approach." 8 ""
                     "Uses a CNN with transfer learning." 0)
          "What are the limitations?" None None "Dataset is small." 7 "" "" 0)
    1
  = "Q: What are the limitations?" +:+ nl +:+ "A: Dataset is small.".
Proof.
  rewrite get_recent_last_entries by lia. reflexivity.
Defined.

End MemorySpec.

(* ===================================================================== *)
(** ** The chunker                                                        *)
(* ===================================================================== *)

Module ChunkingSpec.
Import PyStr Chunking.

(** With a step [chunk_size - overlap >= 1] the loop exits within
    [len(text) - pos] iterations. *)
Lemma chunk_while_terminates fuel : forall text chunk_size overlap pos idx result,
  1 <= chunk_size - overlap ->
  (Z.to_nat (len text - pos) <= fuel)%nat ->
  exists chunks,
    chunk_while fuel text chunk_size overlap pos idx result = Some chunks.
Proof.
  induction fuel as [|fuel IH]; intros text cs ov pos idx result Hstep Hfuel;
    cbn [chunk_while].
  - replace (pos <? len text) with false by (symmetry; apply Z.ltb_ge; lia).
    eauto.
  - destruct (pos <? len text) eqn:Hlt; [|eauto].
    apply Z.ltb_lt in Hlt.
    destruct (negb (is_empty (strip (slice text pos
                (snap_end text pos (pos + cs)))))); apply IH; lia.
Qed.

(** With a step [chunk_size - overlap <= 0] the position never reaches the
    end of the text: no amount of fuel is enough. *)
Lemma chunk_while_diverges fuel : forall text chunk_size overlap pos idx result,
  chunk_size - overlap <= 0 ->
  pos < len text ->
  chunk_while fuel text chunk_size overlap pos idx result = None.
Proof.
  induction fuel as [|fuel IH]; intros text cs ov pos idx result Hstep Hlt;
    cbn [chunk_while];
    replace (pos <? len text) with true by (symmetry; apply Z.ltb_lt; lia).
  - reflexivity.
  - destruct (negb (is_empty (strip (slice text pos
                (snap_end text pos (pos + cs)))))); apply IH; lia.
Qed.

(** A result does not depend on the fuel left over. *)
Lemma chunk_while_more_fuel fuel k : forall text chunk_size overlap pos idx result chunks,
  chunk_while fuel text chunk_size overlap pos idx result = Some chunks ->
  chunk_while (fuel + k) text chunk_size overlap pos idx result = Some chunks.
Proof.
  induction fuel as [|fuel IH]; intros text cs ov pos idx result chunks;
    cbn [chunk_while Nat.add].
  - destruct (pos <? len text) eqn:Hlt; [discriminate|].
    intros <-. destruct k; cbn [chunk_while]; now rewrite Hlt.
  - destruct (pos <? len text); [|auto].
    destruct (negb (is_empty (strip (slice text pos
                (snap_end text pos (pos + cs)))))); apply IH.
Qed.

Lemma len_pos_nonempty text : text <> EmptyString -> 0 < len text.
Proof. destruct text; [congruence|]. unfold len. cbn. lia. Qed.

Lemma is_empty_false s : s <> EmptyString -> is_empty s = false.
Proof. destruct s; [congruence|reflexivity]. Qed.

(** C10: when [0 <= overlap < chunk_size], [chunk_text] returns for every
    text, within [len(text)] iterations, since the position grows by
    [chunk_size - overlap >= 1] each time.  When [overlap >= chunk_size]
    the loop started on a non-empty text never exits, and [chunk_text]
    never returns on a text that has a non-space character (a text of
    spaces only is answered with the empty list before the loop). *)
Theorem chunk_text_termination text chunk_size overlap :
  (0 <= overlap < chunk_size ->
   forall fuel, (String.length text <= fuel)%nat ->
     exists chunks, chunk_text fuel text chunk_size overlap = Some chunks) /\
  (chunk_size <= overlap -> text <> EmptyString ->
   forall fuel, chunk_while fuel text chunk_size overlap 0 0 [] = None) /\
  (chunk_size <= overlap -> strip text <> EmptyString ->
   forall fuel, chunk_text fuel text chunk_size overlap = None).
Proof.
  split; [|split].
  - intros Hpre fuel Hfuel. unfold chunk_text.
    destruct (is_empty text || is_empty (strip text)); [eauto|].
    apply chunk_while_terminates; [lia|].
    unfold len. rewrite Z.sub_0_r, Nat2Z.id. exact Hfuel.
  - intros Hge Hne fuel. apply chunk_while_diverges; [lia|].
    now apply len_pos_nonempty.
  - intros Hge Hne fuel. unfold chunk_text.
    assert (Ht : text <> EmptyString) by (intros ->; now apply Hne).
    rewrite (is_empty_false _ Ht), (is_empty_false _ Hne). cbn [orb].
    apply chunk_while_diverges; [lia|]. now apply len_pos_nonempty.
Qed.

Lemma chunk_text_termination_witness :
  (exists chunks,
      chunk_text 19 "hello world foo bar" 8 2 = Some chunks) /\
  chunk_while 1000 "hello world foo bar" 5 5 0 0 [] = None /\
  chunk_text 1000 "hello world foo bar" 5 7 = None.
Proof.
  split; [|split].
  - apply (proj1 (chunk_text_termination "hello world foo bar" 8 2));
      [lia | vm_compute; lia].
  - apply (proj1 (proj2 (chunk_text_termination "hello world foo bar" 5 5)));
      [lia | discriminate].
  - apply (proj2 (proj2 (chunk_text_termination "hello world foo bar" 5 7)));
      [lia | vm_compute; discriminate].
Defined.

(** The empty list comes back before the loop for a text of spaces only,
    whatever the parameters. *)
Lemma chunk_text_blank fuel text chunk_size overlap :
  all_space text = true -> chunk_text fuel text chunk_size overlap = Some [].
Proof.
  intros H. unfold chunk_text, strip.
  rewrite (PyStrFacts.all_space_rstrip _ H). cbn. now rewrite orb_true_r.
Qed.

End ChunkingSpec.
(* ===================================================================== *)
(** ** More facts about the string primitives                             *)
(* ===================================================================== *)

Module PyStrMore.
Import PyStr PyStrFacts.

Lemma length_app_str a b :
  String.length (a +:+ b) = (String.length a + String.length b)%nat.
Proof.
  induction a as [|c a IH]; [reflexivity|].
  change (Datatypes.S (String.length (a +:+ b))
          = Datatypes.S (String.length a + String.length b)).
  now f_equal.
Qed.

Lemma len_app a b : len (a +:+ b) = len a + len b.
Proof. unfold len. rewrite length_app_str. lia. Qed.

Lemma len_nonneg s : 0 <= len s.
Proof. unfold len. lia. Qed.

Lemma starts_with_refl_app p x : starts_with p (p +:+ x) = true.
Proof.
  induction p as [|c p IH]; simpl; [reflexivity|].
  now rewrite Ascii.eqb_refl.
Qed.

Lemma starts_with_app_l p a b :
  starts_with p a = true -> starts_with p (a +:+ b) = true.
Proof.
  revert a. induction p as [|c p IH]; intros a; [reflexivity|].
  destruct a as [|d a]; simpl; [discriminate|].
  destruct (Ascii.eqb c d); [apply IH|discriminate].
Qed.

Lemma contains_app_l p a b :
  contains p a = true -> contains p (a +:+ b) = true.
Proof.
  induction a as [|d a IH].
  - intros ->%contains_nil_r. apply contains_nil_l.
  - cbn [contains]. intros [H|H]%orb_prop.
    + apply (starts_with_app_l _ _ b) in H.
      change (String d a +:+ b) with (String d (a +:+ b)) in *.
      cbn [contains]. now rewrite H.
    + change (String d a +:+ b) with (String d (a +:+ b)).
      cbn [contains]. rewrite (IH H). apply orb_true_r.
Qed.

Lemma contains_app_r p a b :
  contains p b = true -> contains p (a +:+ b) = true.
Proof.
  intros H. induction a as [|d a IH]; [exact H|].
  change (String d a +:+ b) with (String d (a +:+ b)).
  now apply contains_cons.
Qed.

Lemma contains_refl_app p x : contains p (p +:+ x) = true.
Proof.
  destruct (p +:+ x) eqn:E; cbn [contains]; rewrite <- E;
    now rewrite starts_with_refl_app.
Qed.

(** An occurrence is a decomposition of the text. *)
Lemma starts_with_split p s :
  starts_with p s = true -> exists r, s = p +:+ r.
Proof.
  revert s. induction p as [|c p IH]; intros s H; [now exists s|].
  destruct s as [|d s]; [discriminate|]. cbn [starts_with] in H.
  destruct (Ascii.eqb_spec c d) as [->|]; [|discriminate].
  destruct (IH _ H) as [r ->]. now exists r.
Qed.

Lemma contains_split p s :
  contains p s = true -> exists l r, s = l +:+ p +:+ r.
Proof.
  induction s as [|d s IH]; cbn [contains].
  - rewrite orb_false_r. intros [r Hr]%starts_with_split.
    exists EmptyString, r. exact Hr.
  - intros [H|H]%orb_prop.
    + apply starts_with_split in H as [r Hr]. exists EmptyString, r. exact Hr.
    + destruct (IH H) as (l & r & ->). now exists (String d l), r.
Qed.

Lemma contains_trans p q s :
  contains p q = true -> contains q s = true -> contains p s = true.
Proof.
  intros Hp [l [r ->]]%contains_split.
  apply contains_app_r, contains_app_l, Hp.
Qed.

Lemma lower_app a b : lower (a +:+ b) = lower a +:+ lower b.
Proof.
  unfold lower. induction a as [|c a IH]; simpl;
    [reflexivity|].
  now rewrite IH.
Qed.

Lemma contains_lower p s :
  contains p s = true -> contains (lower p) (lower s) = true.
Proof.
  intros (l & r & ->)%contains_split. rewrite !lower_app.
  apply contains_app_r, contains_refl_app.
Qed.

(** *** The ends of a stripped text *)

Lemma lstrip_starts_nonspace s :
  lstrip s <> EmptyString -> starts_nonspace (lstrip s) = true.
Proof.
  induction s as [|c r IH]; cbn [lstrip]; [congruence|].
  destruct (is_space c) eqn:Hc; [exact IH|].
  intros _. cbn [starts_nonspace]. now rewrite Hc.
Qed.

Lemma rstrip_ends_nonspace s :
  rstrip s <> EmptyString -> ends_nonspace (rstrip s) = true.
Proof.
  induction s as [|c r IH]; cbn [rstrip]; [congruence|].
  destruct (rstrip r) as [|d t] eqn:Hr.
  - cbn [is_empty]. rewrite andb_true_r.
    destruct (is_space c) eqn:Hc; [congruence|].
    intros _. cbn [ends_nonspace]. now rewrite Hc.
  - cbn [is_empty]. rewrite andb_false_r. intros _.
    cbn [ends_nonspace]. apply IH. discriminate.
Qed.

Lemma lstrip_ends_nonspace s :
  ends_nonspace s = true -> ends_nonspace (lstrip s) = true.
Proof.
  induction s as [|c r IH]; [discriminate|].
  cbn [lstrip]. destruct (is_space c) eqn:Hc; [|auto].
  destruct r as [|d t]; cbn [ends_nonspace].
  - rewrite Hc. discriminate.
  - exact IH.
Qed.

Lemma ends_nonspace_nonempty s : ends_nonspace s = true -> s <> EmptyString.
Proof. destruct s; [discriminate|congruence]. Qed.

(** A stripped text is empty or has a non-space character at each end. *)
Lemma strip_ends s :
  strip s <> EmptyString ->
  starts_nonspace (strip s) = true /\ ends_nonspace (strip s) = true.
Proof.
  unfold strip. intros H. split.
  - now apply lstrip_starts_nonspace.
  - apply lstrip_ends_nonspace, rstrip_ends_nonspace.
    intros E. rewrite E in H. now apply H.
Qed.

Lemma lstrip_id s : starts_nonspace s = true -> lstrip s = s.
Proof.
  destruct s as [|c r]; [reflexivity|]. cbn [starts_nonspace lstrip].
  now intros ->%negb_true_iff.
Qed.

Lemma rstrip_id s : ends_nonspace s = true -> rstrip s = s.
Proof.
  induction s as [|c r IH]; [reflexivity|].
  cbn [ends_nonspace rstrip]. destruct r as [|d t].
  - intros ->%negb_true_iff. reflexivity.
  - intros H. rewrite (IH H). cbn [is_empty]. now rewrite andb_false_r.
Qed.

(** Stripping twice changes nothing more. *)
Lemma strip_idemp s : strip (strip s) = strip s.
Proof.
  destruct (strip s) as [|c r] eqn:E; [reflexivity|].
  rewrite <- E. destruct (strip_ends s) as [H1 H2]; [congruence|].
  unfold strip at 1. now rewrite (rstrip_id _ H2), (lstrip_id _ H1).
Qed.

End PyStrMore.

(* ===================================================================== *)
(** ** The planner: shape of every plan                                   *)
(* ===================================================================== *)

Module PlannerMore.
Import PyStr PyRe PyStrFacts PyStrMore Planner.

Lemma number_subtasks_length f i0 l :
  length (number_subtasks f i0 l) = length l.
Proof.
  revert i0. induction l as [|m l IH]; intros i0; cbn [number_subtasks length];
    [reflexivity|now rewrite IH].
Qed.

Lemma number_subtasks_lookup f l : forall i0 (i : nat) t,
  number_subtasks f i0 l !! i = Some t ->
  exists m, l !! i = Some m /\
            t = "Subtask " +:+ str_of_nat (i0 + i + 1) +:+ ": " +:+ f m.
Proof.
  induction l as [|m l IH]; intros i0 i t; cbn [number_subtasks];
    [discriminate|].
  destruct i as [|i].
  - intros [= <-]. exists m. split; [reflexivity|].
    now rewrite Nat.add_0_r.
  - intros H. destruct (IH _ _ _ H) as (m' & Hm & ->).
    exists m'. split; [exact Hm|].
    now replace (i0 + 1 + i + 1)%nat with (i0 + Datatypes.S i + 1)%nat by lia.
Qed.

(** The three shapes a plan can take. *)
Lemma plan_query_cases query :
  let plan := plan_query query in
  let q := strip (lower query) in
  (is_complex (complexity plan) = false /\
   matched_sections q <> [] /\
   subtasks plan = number_subtasks (fun m => m) 0 (matched_sections q) /\
   is_compound plan = (1 <? Z.of_nat (length (matched_sections q))))
  \/ (subtasks plan = [ "Subtask 1: " +:+ query ])
  \/ (is_complex (complexity plan) = true /\
      is_compound plan = true /\
      exists parts,
        (2 <= length parts)%nat /\
        Forall (fun p => p <> EmptyString /\ strip p = p) parts /\
        subtasks plan =
          (number_subtasks capitalize 0 parts
           ++ [ Reference.synthesis_step (length parts + 1) ])%list).
Proof.
  intros plan q. subst plan. unfold plan_query. fold q.
  destruct (is_complex (check_complexity query)) eqn:Hcx; cbn [negb].
  - (* complex *)
    destruct (existsb (fun word => search (re_word word) q) COMPOUND_WORDS)
      eqn:Hcw; [|right; left; reflexivity].
    set (parts := map strip
                    (filter (fun p => negb (is_empty (strip p)))
                            (split re_connector q))).
    destruct (1 <? Z.of_nat (length parts)) eqn:Hlen;
      [|right; left; reflexivity].
    right; right. cbn [complexity is_compound subtasks].
    split; [exact Hcx|]. split; [reflexivity|].
    exists parts. apply Z.ltb_lt in Hlen.
    split; [lia|]. split; [|reflexivity].
    unfold parts. apply Forall_forall. intros p Hp.
    apply list_elem_of_In, in_map_iff in Hp as (p0 & <- & Hin).
    apply list_elem_of_In, list_elem_of_filter in Hin as [Hne _].
    split; [|apply strip_idemp].
    destruct (strip p0); [contradiction|congruence].
  - (* simple *)
    destruct (matched_sections q) as [|d ds] eqn:Hm;
      [right; left; reflexivity|].
    left. cbn [complexity is_compound subtasks].
    split; [exact Hcx|]. split; [discriminate|]. split; [reflexivity|].
    now rewrite number_subtasks_length.
Qed.

(** X1: every plan has at least one subtask, and its subtasks are
    numbered consecutively from 1: the one at position [i] starts with
    "Subtask i+1: ". *)
Theorem plan_query_subtasks_numbered query :
  subtasks (plan_query query) <> [] /\
  forall (i : nat) t,
    subtasks (plan_query query) !! i = Some t ->
    exists body, t = "Subtask " +:+ str_of_nat (i + 1) +:+ ": " +:+ body.
Proof.
  destruct (plan_query_cases query)
    as [(_ & Hne & -> & _)
       |[-> |(_ & _ & parts & Hlen & _ & ->)]].
  - split.
    + intros E. apply Hne.
      apply (f_equal (@length string)) in E.
      rewrite number_subtasks_length in E.
      now destruct (matched_sections _).
    + intros i t (m & _ & ->)%number_subtasks_lookup. eauto.
  - split; [discriminate|].
    intros [|i] t; [|discriminate]. intros [= <-]. eauto.
  - split; [now destruct (number_subtasks capitalize 0 parts)|].
    intros i t [H|[Hi H]]%lookup_app_Some.
    + apply number_subtasks_lookup in H as (m & _ & ->). eauto.
    + rewrite number_subtasks_length in Hi, H.
      destruct (i - length parts)%nat as [|k] eqn:Hk; [|discriminate].
      injection H as <-. replace (length parts + 1)%nat with (i + 1)%nat by lia.
      eauto.
Qed.

Lemma plan_query_subtasks_numbered_witness :
  exists body,
    "Subtask 2: Find info about the limitations."
    = "Subtask " +:+ str_of_nat (1 + 1) +:+ ": " +:+ body.
Proof.
  apply (proj2 (plan_query_subtasks_numbered
                  "What methodology has which limitation?") 1%nat).
  reflexivity.
Defined.

(** X2: a plan with more than one subtask is always flagged compound; and
    when the query is complex, such a plan has at least three subtasks, the
    last of which is the synthesis step carrying the last number. *)
Theorem plan_query_synthesis_last query :
  let plan := plan_query query in
  ((1 < length (subtasks plan))%nat -> is_compound plan = true) /\
  (is_complex (complexity plan) = true ->
   (1 < length (subtasks plan))%nat ->
   (3 <= length (subtasks plan))%nat /\
   last (subtasks plan) = Some (Reference.synthesis_step (length (subtasks plan)))).
Proof.
  intros plan. subst plan.
  destruct (plan_query_cases query)
    as [(Hs & Hne & Hsub & Hc)
       |[Hsub |(_ & Hc & parts & Hlen & _ & Hsub)]];
    rewrite Hsub.
  - rewrite number_subtasks_length. split.
    + intros H. rewrite Hc. apply Z.ltb_lt. lia.
    + congruence.
  - cbn [length]. split; intros; lia.
  - rewrite length_app, number_subtasks_length. cbn [length].
    split; [intros _; exact Hc|]. intros _ _. split; [lia|].
    now rewrite last_snoc.
Qed.

Lemma plan_query_synthesis_last_witness :
  is_compound (plan_query "Compare the results and discuss future work.") = true /\
  last (subtasks (plan_query "Compare the results and discuss future work."))
  = Some "Subtask 3: Combine and summarize findings.".
Proof.
  destruct (plan_query_synthesis_last
              "Compare the results and discuss future work.") as [H1 H2].
  split.
  - apply H1. vm_compute. lia.
  - destruct H2 as [_ ->]; [reflexivity | vm_compute; lia | reflexivity].
Defined.

(** *** Sections matched for a simple query *)

Lemma section_fold_inv q (m : list (string * string)) :
  forall matched (seen : gset string),
    NoDup matched ->
    (forall d, d ∈ seen <-> d ∈ matched) ->
    let res := fst (fold_left (section_step q) m (matched, seen)) in
    NoDup res /\
    (forall d, d ∈ res <->
               d ∈ matched \/
               exists k, (k, d) ∈ m /\ contains k q = true).
Proof.
  induction m as [|[k d] m IH]; intros matched seen Hnd Hseen; cbn [fold_left].
  - cbn [fst]. split; [exact Hnd|]. intros d. split; [auto|].
    intros [H|(k & Hk & _)]; [exact H|]. now apply elem_of_nil in Hk.
  - cbn [section_step].
    destruct (contains k q && negb (bool_decide (d ∈ seen))) eqn:Hstep.
    + apply andb_prop in Hstep as [Hk Hfresh].
      apply negb_true_iff, bool_decide_eq_false in Hfresh.
      destruct (IH (matched ++ [d])%list (seen ∪ {[d]})) as [Hnd' Hres].
      * apply NoDup_app. split; [exact Hnd|]. split.
        -- intros x Hx [->|[]%elem_of_nil]%elem_of_cons.
           apply Hfresh, Hseen, Hx.
        -- apply NoDup_singleton.
      * intros x. rewrite elem_of_union, elem_of_singleton, elem_of_app,
          list_elem_of_singleton, Hseen. tauto.
      * split; [exact Hnd'|]. intros x. rewrite Hres.
        rewrite elem_of_app, list_elem_of_singleton. split.
        -- intros [[H| ->]|(k' & Hin & Hc)].
           ++ now left.
           ++ right. exists k. split; [left|exact Hk].
           ++ right. exists k'. split; [now right|exact Hc].
        -- intros [H|(k' & Hin & Hc)]; [now left; left|].
           apply elem_of_cons in Hin as [[= -> ->]|Hin]; [now left; right|].
           right. eauto.
    + destruct (IH matched seen Hnd Hseen) as [Hnd' Hres].
      split; [exact Hnd'|]. intros x. rewrite Hres. split.
      * intros [H|(k' & Hin & Hc)]; [now left|].
        right. exists k'. split; [now right|exact Hc].
      * intros [H|(k' & Hin & Hc)]; [now left|].
        apply elem_of_cons in Hin as [[= -> ->]|Hin]; [|right; eauto].
        left. apply Hseen. rewrite Hc in Hstep. cbn [andb] in Hstep.
        apply negb_false_iff, bool_decide_eq_true in Hstep. exact Hstep.
Qed.

(** X3: the sections matched for a query are the descriptions of the
    keywords of [SECTION_MAP] that occur in it, each listed once even when
    several of its keywords occur ("method" and "methodology", singular and
    plural); when the query is simple and some section is matched, the
    subtasks of the plan are these descriptions, numbered. *)
Theorem matched_sections_distinct query :
  let q := strip (lower query) in
  NoDup (matched_sections q) /\
  (forall d, d ∈ matched_sections q <->
             exists k, (k, d) ∈ SECTION_MAP /\ contains k q = true) /\
  (is_complex (check_complexity query) = false ->
   matched_sections q <> [] ->
   subtasks (plan_query query)
   = number_subtasks (fun m => m) 0 (matched_sections q)).
Proof.
  intros q.
  destruct (section_fold_inv q SECTION_MAP [] ∅) as [Hnd Hres].
  - apply NoDup_nil_2.
  - intros d. rewrite elem_of_nil. split; [apply not_elem_of_empty|tauto].
  - split; [exact Hnd|]. split.
    + intros d. unfold matched_sections. rewrite Hres, elem_of_nil. tauto.
    + intros Hcx Hne. unfold plan_query. fold q. rewrite Hcx. cbn [negb].
      destruct (matched_sections q); [congruence|reflexivity].
Qed.

Lemma matched_sections_distinct_witness :
  subtasks (plan_query "Which method or methodology gave the results?")
  = [ "Subtask 1: Find info about the methodology or methods used.";
      "Subtask 2: Find info about the results." ].
Proof.
  rewrite (proj2 (proj2 (matched_sections_distinct
                           "Which method or methodology gave the results?")));
    [reflexivity | reflexivity | vm_compute; discriminate].
Defined.

(** *** Queries that cannot be complex *)

Lemma eat_lit_starts p : forall prev s x,
  eat_lit p prev s = Some x -> starts_with p s = true.
Proof.
  induction p as [|a p IH]; intros prev s x; [reflexivity|].
  destruct s as [|b s]; cbn [eat_lit starts_with]; [discriminate|].
  destruct (Ascii.eqb a b); [apply IH|discriminate].
Qed.

Lemma match_here_and prev s n :
  match_here re_and prev s = Some n -> starts_with "and" s = true.
Proof.
  unfold match_here, re_and. cbn [match_re].
  destruct (xorb _ _); [|discriminate].
  destruct (eat_lit "and" prev s) as [[p' s']|] eqn:E; [|discriminate].
  intros _. exact (eat_lit_starts _ _ _ _ E).
Qed.

Lemma search_and_contains s : forall prev,
  search_from re_and prev s = true -> contains "and" s = true.
Proof.
  induction s as [|c s IH]; intros prev; cbn [search_from].
  - destruct (match_here re_and prev EmptyString) eqn:E; [|discriminate].
    apply match_here_and in E. discriminate.
  - destruct (match_here re_and prev (String c s)) eqn:E.
    + intros _. apply match_here_and in E. cbn [contains]. now rewrite E.
    + intros H. apply contains_cons. exact (IH _ H).
Qed.

Lemma first_phrase_none ps q :
  (forall p, In p ps -> contains p q = false) -> first_phrase ps q = None.
Proof.
  induction ps as [|a ps IH]; intros H; [reflexivity|].
  cbn [first_phrase]. rewrite (H a) by now left.
  apply IH. intros p Hp. apply H. now right.
Qed.

(** X4: a query that contains, case-insensitively, none of the six
    phrases and not the letters "and" is never complex. *)
Theorem check_complexity_simple query :
  (forall p, In p complex_phrases -> contains_ci p query = false) ->
  contains_ci "and" query = false ->
  check_complexity query = mkComplexity false "Simple single-topic query".
Proof.
  unfold contains_ci. intros Hph Hand. unfold check_complexity.
  rewrite first_phrase_none.
  - destruct (search re_and (strip (lower query))) eqn:Hs; [|reflexivity].
    apply search_and_contains in Hs.
    unfold strip in Hs.
    apply contains_lstrip_inv, contains_rstrip_inv in Hs. congruence.
  - intros p Hp.
    destruct (contains p (strip (lower query))) eqn:Hc; [|reflexivity].
    unfold strip in Hc.
    apply contains_lstrip_inv, contains_rstrip_inv in Hc.
    rewrite (Hph p Hp) in Hc. discriminate.
Qed.

Lemma check_complexity_simple_witness :
  check_complexity "What dataset was used?"
  = mkComplexity false "Simple single-topic query".
Proof.
  apply check_complexity_simple.
  - intros p Hp. simpl in Hp.
    repeat (destruct Hp as [<-|Hp]; [reflexivity|]). destruct Hp.
  - reflexivity.
Defined.

End PlannerMore.

(* ===================================================================== *)
(** ** The critic: ratios, monotonicity, the no-information sentence      *)
(* ===================================================================== *)

Module CriticMore.
Import PyStr PyStrFacts PyStrMore Eff Critic Observe Reference.

Lemma Qltb_lt x y : Qltb x y = true <-> (x < y)%Q.
Proof.
  unfold Qltb. rewrite negb_true_iff. split.
  - intros H. apply Qnot_le_lt. intros Hle.
    apply Qle_bool_iff in Hle. congruence.
  - intros H. destruct (Qle_bool y x) eqn:E; [|reflexivity].
    apply Qle_bool_iff in E. exfalso. exact (Qlt_not_le _ _ H E).
Qed.

Lemma ratio_bounds k n :
  (k <= n)%nat -> (0 < n)%nat -> (0 <= ratio k n <= 1)%Q.
Proof.
  intros Hk Hn. unfold ratio, Qle. cbn [Qnum Qden].
  rewrite CriticSpec.Zpos_of_nat by assumption. lia.
Qed.

Lemma ratio_mono k1 k2 n :
  (k1 <= k2)%nat -> (ratio k1 n <= ratio k2 n)%Q.
Proof.
  intros H. unfold ratio, Qle. cbn [Qnum Qden].
  apply Z.mul_le_mono_nonneg_r; lia.
Qed.

(** X5: the grounding ratio and the relevance ratio always lie between 0
    and 1. *)
Theorem overlap_ratios_in_unit_interval answer context question :
  (0 <= grounding_overlap answer context <= 1)%Q /\
  (0 <= relevance_overlap answer question <= 1)%Q.
Proof.
  split.
  - unfold grounding_overlap.
    destruct (0 <? size (content_words answer))%nat eqn:Hpos.
    + apply Nat.ltb_lt in Hpos. apply ratio_bounds; [|exact Hpos].
      apply subseteq_size, intersection_subseteq_l.
    + split; discriminate.
  - unfold relevance_overlap. apply ratio_bounds; [|lia].
    etransitivity; [apply subseteq_size, intersection_subseteq_l|lia].
Qed.

Lemma grounding_check_of_one answer context :
  (grounding_overlap answer context == 1)%Q ->
  pct_str (grounding_overlap answer context) = "100%" ->
  grounding_check answer context = ("Good grounding (100%)", 0).
Proof.
  intros H1 Hp. unfold grounding_check.
  rewrite !(CriticSpec.Qltb_proper _ _ _ H1), Hp. reflexivity.
Qed.

(** X6: an answer that has a token outside the stop words and all of whose
    such tokens occur in the context has grounding ratio 1 and no
    grounding deduction. *)
Theorem grounding_full_when_covered answer context :
  (0 < size (content_words answer))%nat ->
  content_words answer ⊆ content_words context ->
  (grounding_overlap answer context == 1)%Q /\
  grounding_check answer context = ("Good grounding (100%)", 0).
Proof.
  intros Hpos Hsub.
  assert (E : content_words answer ∩ content_words context
              = content_words answer).
  { apply set_eq. intros x. rewrite elem_of_intersection.
    split; [tauto|]. intros Hx. split; [exact Hx|]. now apply Hsub. }
  assert (Ho : grounding_overlap answer context
               = ratio (size (content_words answer))
                       (size (content_words answer))).
  { unfold grounding_overlap. rewrite E.
    apply Nat.ltb_lt in Hpos. now rewrite Hpos. }
  assert (H1 : (grounding_overlap answer context == 1)%Q)
    by (rewrite Ho; now apply CriticSpec.ratio_self).
  split; [exact H1|]. apply grounding_check_of_one; [exact H1|].
  rewrite Ho. now apply CriticSpec.pct_str_ratio_self.
Qed.

Lemma grounding_full_when_covered_witness :
  (grounding_overlap "It uses attention."
     "The methodology uses attention. It is fast." == 1)%Q /\
  grounding_check "It uses attention."
     "The methodology uses attention. It is fast."
  = ("Good grounding (100%)", 0).
Proof.
  apply grounding_full_when_covered.
  - vm_compute. lia.
  - apply (bool_decide_unpack _). vm_compute. exact I.
Defined.

(** The deduction as a function of the ratio. *)
Lemma grounding_deduction answer context :
  snd (grounding_check answer context) =
    if Qltb (grounding_overlap answer context) (3 # 10) then 3
    else if Qltb (grounding_overlap answer context) (1 # 2) then 1
    else 0.
Proof.
  unfold grounding_check.
  destruct (Qltb _ (3 # 10)); [reflexivity|].
  destruct (Qltb _ (1 # 2)); reflexivity.
Qed.

Lemma check_deductions_nonneg answer context question :
  0 <= snd (length_check answer) <= 3 /\
  0 <= snd (no_info_check answer) <= 2 /\
  0 <= snd (grounding_check answer context) <= 3 /\
  0 <= snd (relevance_check answer question) <= 2.
Proof.
  unfold length_check, no_info_check, grounding_check, relevance_check.
  repeat match goal with
         | |- context [if ?b then _ else _] => destruct b
         end; cbn [snd]; lia.
Qed.

Lemma heuristic_score_formula answer context question :
  h_score (heuristic_checks answer context question) =
    Z.max 1 (Z.min 10 (10 - snd (length_check answer)
                          - snd (no_info_check answer)
                          - snd (grounding_check answer context)
                          - snd (relevance_check answer question))).
Proof.
  unfold heuristic_checks.
  destruct (length_check answer), (no_info_check answer),
    (grounding_check answer context), (relevance_check answer question).
  reflexivity.
Qed.

(** X7: a context with more vocabulary never grounds an answer less: the
    ratio does not go down, the grounding deduction does not go up, and
    the score does not go down. *)
Theorem grounding_monotone_in_context answer context1 context2 question :
  content_words context1 ⊆ content_words context2 ->
  (grounding_overlap answer context1 <= grounding_overlap answer context2)%Q /\
  snd (grounding_check answer context2) <= snd (grounding_check answer context1) /\
  h_score (heuristic_checks answer context1 question)
    <= h_score (heuristic_checks answer context2 question).
Proof.
  intros Hsub.
  assert (Ho : (grounding_overlap answer context1
                <= grounding_overlap answer context2)%Q).
  { unfold grounding_overlap.
    destruct (0 <? size (content_words answer))%nat; [|apply Qle_refl].
    apply ratio_mono, subseteq_size.
    intros x [Ha Hc]%elem_of_intersection.
    apply elem_of_intersection. split; [exact Ha|now apply Hsub]. }
  assert (Hd : snd (grounding_check answer context2)
               <= snd (grounding_check answer context1)).
  { rewrite !grounding_deduction.
    destruct (Qltb (grounding_overlap answer context1) (3 # 10)) eqn:E1;
      [destruct (Qltb (grounding_overlap answer context2) (3 # 10));
       [lia|destruct (Qltb (grounding_overlap answer context2) (1 # 2)); lia]|].
    assert (E2 : Qltb (grounding_overlap answer context2) (3 # 10) = false).
    { destruct (Qltb (grounding_overlap answer context2) (3 # 10)) eqn:E2;
        [|reflexivity].
      apply Qltb_lt in E2.
      assert (Hlt : Qltb (grounding_overlap answer context1) (3 # 10) = true)
        by (apply Qltb_lt; eapply Qle_lt_trans; eassumption).
      congruence. }
    rewrite E2.
    destruct (Qltb (grounding_overlap answer context1) (1 # 2)) eqn:E3;
      [destruct (Qltb (grounding_overlap answer context2) (1 # 2)); lia|].
    destruct (Qltb (grounding_overlap answer context2) (1 # 2)) eqn:E4;
      [|lia].
    apply Qltb_lt in E4.
    assert (Hlt : Qltb (grounding_overlap answer context1) (1 # 2) = true)
      by (apply Qltb_lt; eapply Qle_lt_trans; eassumption).
    congruence. }
  split; [exact Ho|]. split; [exact Hd|].
  rewrite !heuristic_score_formula. lia.
Qed.

Lemma grounding_monotone_in_context_witness :
  h_score (heuristic_checks "It uses attention." "It is fast." "What is used?")
  <= h_score (heuristic_checks "It uses attention."
                "It is fast. The model uses attention." "What is used?").
Proof.
  apply (grounding_monotone_in_context "It uses attention." "It is fast."
           "It is fast. The model uses attention." "What is used?").
  apply (bool_decide_unpack _). vm_compute. exact I.
Defined.

(** X8: the sentence that [make_prompt] asks the model to give when the
    context lacks the answer is part of every prompt of [build_answer], and
    an answer that contains it (in any letter case) is caught by the
    no-information check: 2 is taken off and the score is at most 8. *)
Theorem no_info_sentence_detected answer context question :
  contains (lower NO_INFO_SENTENCE) (lower answer) = true ->
  contains NO_INFO_SENTENCE (AnswerAgent.make_prompt question context) = true /\
  snd (no_info_check answer) = 2 /\
  h_score (heuristic_checks answer context question) <= 8.
Proof.
  intros Hc. split; [|split].
  - unfold AnswerAgent.make_prompt.
    match goal with
    | |- contains _ (?a +:+ ?b +:+ ?c +:+ ?rest) = true =>
        let pre := eval vm_compute in (a +:+ b +:+ c) in
        change (a +:+ b +:+ c +:+ rest) with (pre +:+ rest)
    end.
    apply contains_app_l. vm_compute. reflexivity.
  - unfold no_info_check, no_info. cbn [existsb].
    assert (H : contains "does not contain" (lower answer) = true).
    { eapply contains_trans; [|exact Hc]. vm_compute. reflexivity. }
    rewrite H. reflexivity.
  - assert (H2 : snd (no_info_check answer) = 2).
    { unfold no_info_check, no_info. cbn [existsb].
      assert (H : contains "does not contain" (lower answer) = true).
      { eapply contains_trans; [|exact Hc]. vm_compute. reflexivity. }
      rewrite H. reflexivity. }
    rewrite heuristic_score_formula, H2.
    pose proof (check_deductions_nonneg answer context question). lia.
Qed.

Lemma no_info_sentence_detected_witness :
  snd (no_info_check
         "THE CONTEXT DOES NOT CONTAIN ENOUGH INFORMATION TO ANSWER THIS.") = 2.
Proof.
  apply (no_info_sentence_detected
           "THE CONTEXT DOES NOT CONTAIN ENOUGH INFORMATION TO ANSWER THIS."
           "" "").
  vm_compute. reflexivity.
Defined.

(** X9: [evaluate] calls the service exactly once, and its prompt, hence
    the qualitative feedback, depends on the context only through the
    first 500 characters. *)
Theorem evaluate_prompt_uses_context_excerpt {S} (llm : Service S)
    answer context1 context2 question model s :
  slice_to context1 500 = slice_to context2 500 ->
  let r1 := evaluate (logged_llm llm) answer context1 question model (s, []) in
  let r2 := evaluate (logged_llm llm) answer context2 question model (s, []) in
  length (snd (snd r1)) = 1%nat /\
  snd r1 = snd r2 /\
  llm_feedback (fst r1) = llm_feedback (fst r2).
Proof.
  intros Hctx r1 r2. subst r1 r2.
  unfold evaluate, llm_eval, bind, ret, logged_llm. rewrite Hctx.
  destruct (llm model _ s) as [out s']. cbn. repeat split.
Qed.

Lemma evaluate_prompt_uses_context_excerpt_witness :
  llm_feedback
    (fst (evaluate (logged_llm (const_llm "Fine."))
            "A CNN." (filler 500 +:+ "tail one") "What?" "m" (tt, [])))
  = llm_feedback
      (fst (evaluate (logged_llm (const_llm "Fine."))
              "A CNN." (filler 500 +:+ "another tail") "What?" "m" (tt, []))).
Proof.
  apply (evaluate_prompt_uses_context_excerpt (const_llm "Fine.")).
  vm_compute. reflexivity.
Defined.

End CriticMore.

(* ===================================================================== *)
(** ** The revision loop: what the result records                         *)
(* ===================================================================== *)

Module RevisionMore.
Import PyStr Eff Revision Observe.

Section Loop.
Context {S : Type} (llm : Service S).
Variable eval_fn : string -> string -> string -> string -> M S Critic.Evaluation.
Variables context question model : string.
Variable max_rounds : Z.

(** A property of everything the callback returns. *)
Variable P : Critic.Evaluation -> Prop.
Hypothesis eval_fn_P : forall a c q mo s, P (fst (eval_fn a c q mo s)).

Lemma revision_while_shape answer0 fuel : forall v s,
  loop_shape P answer0 v ->
  v_rounds_done v <= max_rounds ->
  (Z.to_nat (max_rounds - v_rounds_done v) <= fuel)%nat ->
  exists v' s',
    revision_while llm eval_fn fuel context question model max_rounds v s
    = (Some v', s') /\
    loop_shape P answer0 v' /\
    (Critic.needs_revision (v_ev v') = false \/ v_rounds_done v' = max_rounds).
Proof.
  induction fuel as [|fuel IH]; intros v s Hv Hle Hfuel; cbn [revision_while].
  - destruct (Critic.needs_revision (v_ev v)) eqn:Hn; cbn [andb].
    + replace (v_rounds_done v <? max_rounds) with false
        by (symmetry; apply Z.ltb_ge; lia).
      unfold ret. eexists _, _. split; [reflexivity|]. split; [exact Hv|].
      right. lia.
    + unfold ret. eexists _, _. split; [reflexivity|]. split; [exact Hv|].
      now left.
  - destruct (Critic.needs_revision (v_ev v)) eqn:Hn; cbn [andb];
      [|unfold ret; eexists _, _; split; [reflexivity|];
        split; [exact Hv|now left]].
    destruct (v_rounds_done v <? max_rounds) eqn:Hlt;
      [|apply Z.ltb_ge in Hlt; unfold ret; eexists _, _;
        split; [reflexivity|]; split; [exact Hv|right; lia]].
    apply Z.ltb_lt in Hlt.
    unfold revise. unfold bind, ret. cbn beta.
    match goal with
    | |- context [llm model ?prompt s] =>
        destruct (llm model prompt s) as [out s1]
    end.
    cbn [revised].
    pose proof (eval_fn_P (strip out) context question model s1) as HP.
    destruct (eval_fn (strip out) context question model s1) as [ev s2].
    cbn [fst] in HP.
    apply IH; cbn [v_rounds_done]; [|lia|lia].
    destruct Hv as (pre & Hh & Hr & Hpre & HPv & r0 & rest & Hhd & Ha & H0).
    exists (v_history v). cbn [v_history v_rounds_done v_current v_ev].
    split; [reflexivity|]. split; [rewrite Hh, length_app; cbn [length]; lia|].
    split; [|split; [exact HP|]].
    + rewrite Hh at 1. apply Forall_app. split; [exact Hpre|].
      apply Forall_singleton. exists (v_ev v). cbn [r_score]. auto.
    + exists r0, (rest ++ [mkRound (v_rounds_done v + 1) (strip out)
                             (Critic.score ev) (Critic.feedback ev)])%list.
      rewrite Hhd. auto.
Qed.

(** What [run_revision_loop] returns, with fuel for [max_rounds] rounds. *)
Lemma run_revision_loop_shape fuel answer s :
  0 <= max_rounds ->
  (Z.to_nat max_rounds <= fuel)%nat ->
  exists v s',
    run_revision_loop llm eval_fn fuel answer context question model
                      max_rounds s
    = (Some (mkLoopResult (v_current v) (v_rounds_done v) (v_history v)
               (first_score (v_history v) <? last_score (v_history v))
               (first_score (v_history v)) (last_score (v_history v))), s') /\
    loop_shape P answer v /\
    (Critic.needs_revision (v_ev v) = false \/ v_rounds_done v = max_rounds).
Proof.
  intros Hm Hfuel. unfold run_revision_loop. unfold bind at 1.
  pose proof (eval_fn_P answer context question model s) as HP.
  destruct (eval_fn answer context question model s) as [ev s1].
  cbn [fst] in HP. unfold bind.
  set (v0 := mkLoopVars ev 0 answer _).
  destruct (revision_while_shape answer fuel v0 s1) as (v' & s' & -> & Hv & Hex).
  - exists []. unfold v0. cbn. repeat split; auto. eauto.
  - cbn. lia.
  - cbn. rewrite Z.sub_0_r. exact Hfuel.
  - unfold ret. eauto.
Qed.

(** X11: when the first evaluation asks for no revision, or the cap is 0
    or less, the loop makes that one evaluation only: the answer comes back
    unchanged, with no round, a history of one entry and [got_better]
    false, and the service is not called. *)
Theorem run_revision_loop_no_revision fuel answer s :
  Critic.needs_revision (fst (eval_fn answer context question model s)) = false
  \/ max_rounds <= 0 ->
  run_revision_loop llm eval_fn fuel answer context question model max_rounds s
  = let '(ev, s1) := eval_fn answer context question model s in
    (Some (mkLoopResult answer 0
             [ mkRound 0 answer (Critic.score ev) (Critic.feedback ev) ]
             false (Critic.score ev) (Critic.score ev)), s1).
Proof.
  intros H. unfold run_revision_loop. unfold bind at 1.
  destruct (eval_fn answer context question model s) as [ev s1].
  cbn [fst] in H. unfold bind.
  assert (Hguard : Critic.needs_revision ev && (0 <? max_rounds) = false).
  { destruct H as [-> | H]; [reflexivity|].
    replace (0 <? max_rounds) with false by (symmetry; apply Z.ltb_ge; lia).
    apply andb_false_r. }
  destruct fuel; cbn [revision_while v_ev v_rounds_done]; rewrite Hguard;
    unfold ret; cbn [v_current v_rounds_done v_history first_score last_score
                     rev app r_score];
    now rewrite Z.ltb_irrefl.
Qed.

End Loop.

(** X12: the result of [run_revision_loop] is consistent with its history:
    the first entry holds the initial answer and [score_before], the last
    entry holds [final_answer] and [score_after] and is numbered [rounds],
    there are [rounds + 1] entries, and [got_better] says whether
    [score_after] exceeds [score_before]. *)
Theorem run_revision_loop_result_consistent {S} (llm : Service S)
    (eval_fn : string -> string -> string -> string -> M S Critic.Evaluation)
    context question model max_rounds fuel answer s :
  0 <= max_rounds ->
  (Z.to_nat max_rounds <= fuel)%nat ->
  exists res s' first rest pre final,
    run_revision_loop llm eval_fn fuel answer context question model
                      max_rounds s = (Some res, s') /\
    history res = first :: rest /\
    r_answer first = answer /\ r_score first = score_before res /\
    history res = (pre ++ [final])%list /\
    r_answer final = final_answer res /\ r_score final = score_after res /\
    round final = rounds res /\ rounds res = Z.of_nat (length pre) /\
    got_better res = (score_before res <? score_after res).
Proof.
  intros Hm Hfuel.
  destruct (run_revision_loop_shape llm eval_fn context question model
              max_rounds (fun _ => True) (fun _ _ _ _ _ => Logic.I)
              fuel answer s Hm Hfuel)
    as (v & s' & Hrun & Hv & _).
  destruct Hv as (pre & Hh & Hr & _ & _ & r0 & rest & Hhd & Ha & _).
  eexists _, s', r0, rest, pre, _. split; [exact Hrun|].
  cbn [history final_answer rounds score_before score_after got_better].
  split; [exact Hhd|]. split; [exact Ha|].
  split; [rewrite Hhd; reflexivity|]. split; [exact Hh|].
  cbn [r_answer r_score round]. split; [reflexivity|].
  split; [unfold last_score; rewrite Hh, rev_unit; reflexivity|].
  split; [reflexivity|]. split; [exact Hr|reflexivity].
Qed.

Lemma run_revision_loop_result_consistent_witness :
  exists res s' first rest pre final,
    run_revision_loop (const_llm "It uses transformers.")
      (Critic.evaluate (const_llm "Too vague."))
      2 "It uses something."
      "The methodology uses transformers with attention mechanisms."
      "What is the methodology?" AnswerAgent.LLM_NAME MAX_ROUNDS tt
    = (Some res, s') /\
    history res = first :: rest /\
    r_answer first = "It uses something." /\
    r_score first = score_before res /\
    history res = (pre ++ [final])%list /\
    r_answer final = final_answer res /\ r_score final = score_after res /\
    round final = rounds res /\ rounds res = Z.of_nat (length pre) /\
    got_better res = (score_before res <? score_after res).
Proof.
  apply (run_revision_loop_result_consistent
           (const_llm "It uses transformers.")
           (Critic.evaluate (const_llm "Too vague."))).
  - unfold MAX_ROUNDS. lia.
  - vm_compute. lia.
Defined.

Lemma run_revision_loop_no_revision_witness :
  run_revision_loop (const_llm "unused") (Critic.evaluate (const_llm "ok"))
    0 "It uses something." "ctx" "What?" "m" 0 tt
  = (Some (mkLoopResult "It uses something." 0
             [ mkRound 0 "It uses something." 2
                 (Critic.feedback
                    (fst (Critic.evaluate (const_llm "ok")
                            "It uses something." "ctx" "What?" "m" tt))) ]
             false 2 2), tt).
Proof.
  rewrite (run_revision_loop_no_revision (const_llm "unused")
             (Critic.evaluate (const_llm "ok")) "ctx" "What?" "m" 0 0
             "It uses something." tt) by (right; lia).
  vm_compute. reflexivity.
Defined.

(** X10: the loop run with the critic's [evaluate] as callback.  It stops
    with a final score of at least 7 or after exactly [max_rounds] rounds;
    every recorded score lies between 1 and 10, and every entry but the
    last has a score below 7 (the reason for the revision after it). *)
Theorem revision_with_critic_outcome {S} (llm : Service S)
    context question model max_rounds fuel answer s :
  0 <= max_rounds ->
  (Z.to_nat max_rounds <= fuel)%nat ->
  exists res s',
    run_revision_loop llm (Critic.evaluate llm) fuel answer context question
                      model max_rounds s = (Some res, s') /\
    (7 <= score_after res \/ rounds res = max_rounds) /\
    Forall (fun r => 1 <= r_score r <= 10) (history res) /\
    (forall (i : nat) r,
        history res !! i = Some r ->
        (i + 1 < length (history res))%nat -> r_score r < 7).
Proof.
  intros Hm Hfuel.
  set (P := fun ev : Critic.Evaluation =>
              1 <= Critic.score ev <= 10 /\
              Critic.needs_revision ev = (Critic.score ev <? 7)).
  assert (HP : forall a c q mo st, P (fst (Critic.evaluate llm a c q mo st))).
  { intros a c q mo st. unfold P.
    destruct (CriticSpec.evaluate_result llm a c q mo st) as [l ->].
    cbn [Critic.score Critic.needs_revision].
    split; [apply CriticSpec.heuristic_score_clamped|reflexivity]. }
  destruct (run_revision_loop_shape llm (Critic.evaluate llm) context question
              model max_rounds P HP fuel answer s Hm Hfuel)
    as (v & s' & Hrun & Hv & Hex).
  destruct Hv as (pre & Hh & Hr & Hpre & [Hrange Hnr] & _).
  eexists _, s'. split; [exact Hrun|].
  cbn [history rounds score_after].
  assert (Hlast : last_score (v_history v) = Critic.score (v_ev v))
    by (unfold last_score; rewrite Hh, rev_unit; reflexivity).
  assert (Hlow : Forall (fun r => 1 <= r_score r <= 10 /\ r_score r < 7) pre).
  { eapply Forall_impl; [exact Hpre|].
    intros r (ev & [Hrg Hn] & Hneed & ->). split; [exact Hrg|].
    rewrite Hn in Hneed. now apply Z.ltb_lt. }
  split; [|split].
  - rewrite Hlast. destruct Hex as [Hex|Hex]; [left|now right].
    rewrite Hnr in Hex. now apply Z.ltb_ge.
  - rewrite Hh. apply Forall_app. split.
    + eapply Forall_impl; [exact Hlow|]. intros r [H _]. exact H.
    + apply Forall_singleton. exact Hrange.
  - intros i r Hi Hlen. rewrite Hh in Hi, Hlen.
    rewrite length_app in Hlen. cbn [length] in Hlen.
    rewrite lookup_app_l in Hi by lia.
    rewrite Forall_forall in Hlow.
    apply Hlow. eapply list_elem_of_lookup_2. exact Hi.
Qed.

Lemma revision_with_critic_outcome_witness :
  exists res s',
    run_revision_loop (const_llm "It uses transformers.")
      (Critic.evaluate (const_llm "It uses transformers."))
      2 "It uses something."
      "The methodology uses transformers with attention mechanisms."
      "What is the methodology?" AnswerAgent.LLM_NAME MAX_ROUNDS tt
    = (Some res, s') /\
    (7 <= score_after res \/ rounds res = MAX_ROUNDS) /\
    Forall (fun r => 1 <= r_score r <= 10) (history res) /\
    (forall (i : nat) r,
        history res !! i = Some r ->
        (i + 1 < length (history res))%nat -> r_score r < 7).
Proof.
  apply (revision_with_critic_outcome (const_llm "It uses transformers.")).
  - unfold MAX_ROUNDS. lia.
  - vm_compute. lia.
Defined.

End RevisionMore.

(* ===================================================================== *)
(** ** The answer generator: prompt lengths, merging partial answers      *)
(* ===================================================================== *)

Module AnswerMore.
Import PyStr PyStrMore Eff AnswerAgent Observe.

(** Replace the length of every literal by its value. *)
Ltac literal_lens :=
  unfold nl;
  repeat match goal with
         | |- context [len (String ?a ?r)] =>
             let n := eval vm_compute in (len (String a r)) in
             change (len (String a r)) with n
         end.

(** The template of [make_prompt] has 217 characters of its own. *)
Lemma make_prompt_len question context :
  len (make_prompt question context) = 217 + len question + len context.
Proof. unfold make_prompt. rewrite !len_app. literal_lens. lia. Qed.

Lemma substring_0_length k s :
  String.length (substring 0 k s) = Nat.min k (String.length s).
Proof.
  revert k. induction s as [|c r IH]; intros [|k]; cbn [substring String.length Nat.min];
    try reflexivity.
  now rewrite IH.
Qed.

Lemma slice_to_len s (k : nat) : len (slice_to s (Z.of_nat k)) = Z.min (len s) (Z.of_nat k).
Proof.
  rewrite AnswerSpec.slice_to_first_chars. unfold len.
  rewrite substring_0_length, Nat2Z.inj_min. lia.
Qed.

(** X13: the prompt [build_answer] sends has 217 fixed characters, the
    question, and the context cut to 1800 characters when the assembled
    prompt was over 2000.  So the cut never brings a prompt back within
    2000 characters: the prompt sent is within the budget exactly when the
    assembled one was; it is never longer than 2017 characters plus the
    question (or 2000 when that is more). *)
Theorem build_answer_prompt_length {S} (llm : Service S)
    question context model s :
  let sent := prompt_used (fst (build_answer llm question context model s)) in
  len sent = 217 + len question
             + (if 2000 <? len (make_prompt question context)
                then Z.min (len context) 1800 else len context) /\
  (len sent <= 2000 <-> len (make_prompt question context) <= 2000) /\
  len sent <= Z.max 2000 (2017 + len question).
Proof.
  intros sent. subst sent. unfold build_answer, bind, ret.
  destruct (llm model _ s) as [out s']. cbn [fst prompt_used].
  change 1800 with (Z.of_nat 1800).
  pose proof (slice_to_len context 1800) as Hcut.
  pose proof (len_nonneg question). pose proof (len_nonneg context).
  destruct (2000 <? len (make_prompt question context)) eqn:Hlong.
  - apply Z.ltb_lt in Hlong. rewrite !make_prompt_len in *. rewrite Hcut.
    change (Z.of_nat 1800) with 1800. lia.
  - apply Z.ltb_ge in Hlong. rewrite !make_prompt_len in *. lia.
Qed.

(** *** [combine_answers] *)

Lemma number_parts_lookup l : forall i0 (i : nat) a,
  l !! i = Some a ->
  number_parts i0 l !! i
  = Some ("Part " +:+ str_of_nat (i0 + i + 1) +:+ ": " +:+ a).
Proof.
  induction l as [|x l IH]; intros i0 i a; [discriminate|].
  destruct i as [|i]; cbn [number_parts].
  - intros [= ->]. now rewrite Nat.add_0_r.
  - intros H.
    replace (i0 + Datatypes.S i + 1)%nat with (i0 + 1 + i + 1)%nat by lia.
    exact (IH (i0 + 1)%nat i a H).
Qed.

Lemma contains_self p : contains p p = true.
Proof.
  destruct p as [|c p]; [reflexivity|]. cbn [contains].
  replace (starts_with (String c p) (String c p)) with true; [reflexivity|].
  symmetry. pose proof (starts_with_refl_app (String c p) EmptyString) as H.
  assert (E : forall s, s +:+ EmptyString = s).
  { induction s as [|d s IHs]; [reflexivity|].
    change (String d s +:+ EmptyString) with (String d (s +:+ EmptyString)).
    now rewrite IHs. }
  now rewrite E in H.
Qed.

(** Every piece occurs in the joined text. *)
Lemma contains_join sep l x : x ∈ l -> contains x (join sep l) = true.
Proof.
  induction l as [|y l IH]; [intros []%elem_of_nil|].
  intros [->|Hx]%elem_of_cons.
  - destruct l as [|z l]; cbn [join]; [apply contains_self|].
    apply contains_refl_app.
  - destruct l as [|z l]; [now apply elem_of_nil in Hx|].
    cbn [join]. apply contains_app_r, contains_app_r. exact (IH Hx).
Qed.

(** X14: [combine_answers] sends one prompt.  Every partial answer is in
    it, in order, as "Part i: answer" with [i] counted from 1, and so is
    the question; the list of partial answers is given back unchanged.
    There is no length guard: nothing is cut. *)
Theorem combine_answers_prompt {S} (llm : Service S)
    question partials model s :
  let r := combine_answers (logged_llm llm) question partials model (s, []) in
  snd (snd r) = [ c_prompt_used (fst r) ] /\
  partial_answers (fst r) = partials /\
  contains question (c_prompt_used (fst r)) = true /\
  (forall (i : nat) a,
      partials !! i = Some a ->
      contains ("Part " +:+ str_of_nat (i + 1) +:+ ": " +:+ a)
               (c_prompt_used (fst r)) = true).
Proof.
  intros r. subst r. unfold combine_answers, bind, ret, logged_llm.
  destruct (llm model _ s) as [out s'].
  cbn [fst snd c_prompt_used partial_answers app].
  split; [reflexivity|]. split; [reflexivity|].
  unfold combine_prompt. split.
  - do 8 apply contains_app_r. apply contains_refl_app.
  - intros i a Hi. do 4 apply contains_app_r. apply contains_app_l.
    apply contains_join, list_elem_of_lookup. exists i.
    now apply (number_parts_lookup partials 0%nat).
Qed.

Lemma combine_answers_prompt_witness :
  contains "Part 2: It has limits."
    (c_prompt_used
       (fst (combine_answers (logged_llm (const_llm "Both."))
               "What and why?" [ "It uses a CNN."; "It has limits." ]
               LLM_NAME (tt, []))))
  = true.
Proof.
  apply (proj2 (proj2 (proj2 (combine_answers_prompt (const_llm "Both.")
           "What and why?" [ "It uses a CNN."; "It has limits." ]
           LLM_NAME tt))) 1%nat).
  reflexivity.
Defined.

End AnswerMore.

(* ===================================================================== *)
(** ** The session memory: appending, odd window sizes                    *)
(* ===================================================================== *)

Module MemoryMore.
Import PyStr Memory Reference.

Section WithChunks.
Context {C : Type}.
Implicit Types (mem : Memory C) (e : Entry C).

Lemma last_snoc_some (l : list (Entry C)) e :
  List.last (map Some (l ++ [e])) None = Some e.
Proof. rewrite map_app. cbn [map]. apply List.last_last. Qed.

(** X15: [save] only appends.  The count grows by one, [last()] is the
    new entry (with [None] for the subtasks or chunks stored as an empty
    list), every entry recorded before is still there at its position, and
    [get_all_chunks()] grows by the chunks of the new entry, at the end. *)
Theorem save_appends now mem query st (ch : option (list C))
    answer sc fb final rv :
  let mem' := save now mem query st ch answer sc fb final rv in
  count mem' = count mem + 1 /\
  last mem' = Some (mkEntry now query (or_nil st) (or_nil ch) answer sc fb
                            final rv) /\
  (forall (i : nat) e, log mem !! i = Some e -> log mem' !! i = Some e) /\
  get_all_chunks mem' = (get_all_chunks mem ++ or_nil ch)%list.
Proof.
  intros mem'. subst mem'. unfold save, count, last, get_all_chunks.
  cbn [log]. split; [|split; [|split]].
  - rewrite length_app. cbn [length]. lia.
  - apply last_snoc_some.
  - intros i e Hi. apply lookup_app_l_Some. exact Hi.
  - rewrite map_app, concat_app. cbn [map concat chunks_used].
    now rewrite app_nil_r.
Qed.

Lemma skipn_min {A} (k : nat) (l : list A) :
  skipn (Nat.min k (length l)) l = skipn k l.
Proof.
  destruct (Nat.le_gt_cases k (length l)) as [H|H].
  - now rewrite Nat.min_l.
  - rewrite Nat.min_r by lia.
    rewrite !skipn_all2 by lia. reflexivity.
Qed.

(** X16: for [n <= 0], [get_recent(n)] does not show the last entries but
    the log without its first [-n] entries: all of it for [n = 0], and the
    notice "No previous queries." once nothing is left. *)
Theorem get_recent_nonpositive mem n :
  n <= 0 ->
  get_recent mem n =
    match skipn (Z.to_nat (- n)) (log mem) with
    | [] => "No previous queries."
    | e :: w => join (nl +:+ nl) (map format_entry (e :: w))
    end.
Proof.
  intros Hn. unfold get_recent, list_slice_from, norm_index.
  replace (n <=? Z.of_nat (length (log mem))) with true
    by (symmetry; apply Z.leb_le; lia).
  replace (- n <? 0) with false by (symmetry; apply Z.ltb_ge; lia).
  replace (Z.to_nat (Z.min (- n) (Z.of_nat (length (log mem)))))
    with (Nat.min (Z.to_nat (- n)) (length (log mem))) by lia.
  rewrite skipn_min.
  destruct (skipn (Z.to_nat (- n)) (log mem)); reflexivity.
Qed.

End WithChunks.

Lemma save_appends_witness :
  get_all_chunks
    (save "t2" (save "t1" (@init nat) "q1" None (Some [1%nat; 2%nat])
                     "a1" 8 "" "f1" 0)
          "q2" None (Some [3%nat]) "a2" 7 "" "" 0)
  = [1%nat; 2%nat; 3%nat].
Proof.
  destruct (save_appends "t2"
              (save "t1" (@init nat) "q1" None (Some [1%nat; 2%nat])
                    "a1" 8 "" "f1" 0)
              "q2" None (Some [3%nat]) "a2" 7 "" "" 0) as (_ & _ & _ & ->).
  reflexivity.
Defined.

Lemma get_recent_nonpositive_witness :
  get_recent
    (save "t2" (save "t1" (@init nat) "q1" None None "a1" 8 "" "f1" 0)
          "q2" None None "a2" 7 "" "" 0)
    0
  = "Q: q1" +:+ nl +:+ "A: f1" +:+ nl +:+ nl +:+ "Q: q2" +:+ nl +:+ "A: a2".
Proof. rewrite get_recent_nonpositive by lia. reflexivity. Defined.

End MemoryMore.

(* ===================================================================== *)
(** ** The chunker: what every chunk looks like                           *)
(* ===================================================================== *)

Module ChunkingMore.
Import PyStr PyStrFacts PyStrMore Chunking Reference.

Lemma rfind_down_bound s sub base k :
  rfind_down s sub base k = -1 \/
  base <= rfind_down s sub base k < base + Z.of_nat k.
Proof.
  induction k as [|k IH]; cbn [rfind_down]; [now left|].
  destruct (starts_with sub _); [right; lia|].
  destruct IH as [IH|IH]; [now left|right; lia].
Qed.

(** A match of [rfind] ends at or before the stop index. *)
Lemma rfind_upper s sub start stop :
  0 <= stop ->
  rfind s sub start stop = -1 \/ rfind s sub start stop + len sub <= stop.
Proof.
  intros Hstop. unfold rfind.
  set (lo := norm_index (len s) start).
  set (hi := norm_index (len s) stop).
  assert (Hhi : hi <= stop).
  { unfold hi, norm_index.
    replace (stop <? 0) with false by (symmetry; apply Z.ltb_ge; lia). lia. }
  destruct (rfind_down_bound s sub lo (Z.to_nat (hi - len sub - lo + 1)))
    as [H|H]; [now left|right]. lia.
Qed.

(** The window of one iteration is not empty and at most [chunk_size]
    long. *)
Lemma snap_end_bounds source pos chunk_size :
  0 <= pos -> 1 <= chunk_size ->
  pos < snap_end source pos (pos + chunk_size) <= pos + chunk_size.
Proof.
  intros Hpos Hcs. unfold snap_end.
  destruct (pos + chunk_size <? len source); [|lia].
  pose proof (rfind_upper source ". " pos (pos + chunk_size)) as H1.
  pose proof (rfind_upper source nl pos (pos + chunk_size)) as H2.
  pose proof (rfind_upper source " " pos (pos + chunk_size)) as H3.
  change (len ". ") with 2 in H1. change (len nl) with 1 in H2.
  change (len " ") with 1 in H3.
  set (r1 := rfind source ". " pos (pos + chunk_size)) in *.
  set (r2 := rfind source nl pos (pos + chunk_size)) in *.
  set (r3 := rfind source " " pos (pos + chunk_size)) in *.
  cbv zeta.
  set (bp := if (if r1 =? -1 then r2 else r1) =? -1 then r3
             else (if r1 =? -1 then r2 else r1)).
  assert (Hbp : bp = -1 \/ bp + 1 <= pos + chunk_size).
  { unfold bp. destruct (r1 =? -1) eqn:E1.
    - destruct (r2 =? -1) eqn:E2; lia.
    - rewrite E1. lia. }
  destruct (negb (bp =? -1) && (pos <? bp)) eqn:E; [|lia].
  apply andb_prop in E as [E3 Hlt]. apply Z.ltb_lt in Hlt. lia.
Qed.

(** The invariant of the loop of [chunk_text]. *)
Lemma chunk_while_inv source chunk_size overlap fuel :
  1 <= chunk_size -> 1 <= chunk_size - overlap ->
  forall pos idx result chunks,
    0 <= pos -> (chunk_size - overlap | pos) ->
    idx = Z.of_nat (length result) ->
    (forall (i : nat) c, result !! i = Some c ->
        chunk_ok source chunk_size (chunk_size - overlap) i c /\ start c < pos) ->
    starts_increasing result ->
    chunk_while fuel source chunk_size overlap pos idx result = Some chunks ->
    (forall (i : nat) c, chunks !! i = Some c ->
        chunk_ok source chunk_size (chunk_size - overlap) i c) /\
    starts_increasing chunks.
Proof.
  intros Hcs Hstep.
  induction fuel as [|fuel IH];
    intros pos idx result chunks Hpos Hdiv Hidx Hok Hinc; cbn [chunk_while].
  - destruct (pos <? len source); [discriminate|].
    intros [= <-]. split; [|exact Hinc]. intros i c Hi. now apply Hok.
  - destruct (pos <? len source) eqn:Hlt;
      [|intros [= <-]; split; [|exact Hinc]; intros i c Hi; now apply Hok].
    apply Z.ltb_lt in Hlt.
    pose proof (snap_end_bounds source pos chunk_size Hpos Hcs) as Hend.
    set (stop := snap_end source pos (pos + chunk_size)) in *.
    set (piece := strip (slice source pos stop)).
    assert (Hdiv' : (chunk_size - overlap | pos + (chunk_size - overlap)))
      by (apply Z.divide_add_r; [exact Hdiv|apply Z.divide_refl]).
    destruct (is_empty piece) eqn:Hp; cbn [negb].
    + apply IH; try assumption; [lia|].
      intros i c Hi. destruct (Hok i c Hi). split; [assumption|lia].
    + assert (Hne : piece <> EmptyString) by (intros E; now rewrite E in Hp).
      apply IH; [lia|exact Hdiv'| | |].
      * rewrite length_app. cbn [length]. lia.
      * intros i c [Hi|[Hi Hc]]%lookup_app_Some.
        -- destruct (Hok i c Hi). split; [assumption|lia].
        -- destruct (i - length result)%nat as [|k] eqn:Hk; [|discriminate].
           injection Hc as <-. split; [|cbn [start]; lia].
           unfold chunk_ok. cbn [chunk_id start Chunking.stop text].
           repeat split; try assumption; try lia.
      * intros i j ci cj Hi Hj Hij.
        apply lookup_app_Some in Hi as [Hi|[Hi Hci]];
          apply lookup_app_Some in Hj as [Hj|[Hj Hcj]].
        -- exact (Hinc i j ci cj Hi Hj Hij).
        -- destruct (j - length result)%nat as [|k]; [|discriminate].
           injection Hcj as <-. cbn [start]. now destruct (Hok i ci Hi).
        -- apply lookup_lt_Some in Hj. lia.
        -- destruct (i - length result)%nat as [|k] eqn:Hki; [|discriminate].
           destruct (j - length result)%nat as [|k'] eqn:Hkj; [|discriminate].
           lia.
Qed.

(** The result of [chunk_text] under its precondition. *)
Lemma chunk_text_inv source chunk_size overlap fuel :
  0 <= overlap < chunk_size ->
  (String.length source <= fuel)%nat ->
  exists chunks,
    chunk_text fuel source chunk_size overlap = Some chunks /\
    (forall (i : nat) c, chunks !! i = Some c ->
        chunk_ok source chunk_size (chunk_size - overlap) i c) /\
    starts_increasing chunks.
Proof.
  intros Hpre Hfuel. unfold chunk_text.
  destruct (is_empty source || is_empty (strip source)).
  - exists []. split; [reflexivity|]. split.
    + intros i c Hi. discriminate.
    + intros i j ci cj Hi. discriminate.
  - destruct (ChunkingSpec.chunk_while_terminates fuel source chunk_size
                overlap 0 0 []) as [chunks Hrun]; [lia| |].
    + unfold len. rewrite Z.sub_0_r, Nat2Z.id. exact Hfuel.
    + exists chunks. split; [exact Hrun|].
      eapply (chunk_while_inv source chunk_size overlap fuel);
        try exact Hrun; try lia.
      * apply Z.divide_0_r.
      * reflexivity.
      * intros i c Hi. discriminate.
      * intros i j ci cj Hi. discriminate.
Qed.

(** X17: for [0 <= overlap < chunk_size], [chunk_text] returns chunks
    whose ids are their positions 0, 1, 2, ...; each chunk's text is the
    stripped window [source[start:end]], is not empty and has no white
    space at either end; the window starts inside the source and is between
    1 and [chunk_size] characters long. *)
Theorem chunk_text_chunks_well_formed source chunk_size overlap fuel :
  0 <= overlap < chunk_size ->
  (String.length source <= fuel)%nat ->
  exists chunks,
    chunk_text fuel source chunk_size overlap = Some chunks /\
    forall (i : nat) c, chunks !! i = Some c ->
      chunk_id c = Z.of_nat i /\
      text c = strip (slice source (start c) (Chunking.stop c)) /\
      starts_nonspace (text c) = true /\ ends_nonspace (text c) = true /\
      0 <= start c < len source /\
      start c < Chunking.stop c <= start c + chunk_size.
Proof.
  intros Hpre Hfuel.
  destruct (chunk_text_inv source chunk_size overlap fuel Hpre Hfuel)
    as (chunks & Hrun & Hok & _).
  exists chunks. split; [exact Hrun|]. intros i c Hi.
  destruct (Hok i c Hi) as (Hid & Hs & _ & Hw & Ht & Hne).
  split; [exact Hid|]. split; [exact Ht|].
  assert (Hne' : strip (slice source (start c) (Chunking.stop c))
                 <> EmptyString) by now rewrite <- Ht.
  destruct (strip_ends _ Hne') as [H1 H2]. rewrite <- Ht in H1, H2. auto.
Qed.

Lemma chunk_text_chunks_well_formed_witness :
  exists chunks,
    chunk_text 19 "hello world foo bar" 8 2 = Some chunks /\
    forall (i : nat) c, chunks !! i = Some c ->
      chunk_id c = Z.of_nat i /\
      text c = strip (slice "hello world foo bar" (start c) (Chunking.stop c)) /\
      starts_nonspace (text c) = true /\ ends_nonspace (text c) = true /\
      0 <= start c < len "hello world foo bar" /\
      start c < Chunking.stop c <= start c + 8.
Proof.
  apply (chunk_text_chunks_well_formed "hello world foo bar" 8 2 19);
    [lia | vm_compute; lia].
Defined.

Lemma starts_lower_bound step (chunks : list Chunk) :
  1 <= step ->
  (forall (i : nat) c, chunks !! i = Some c -> 0 <= start c /\ (step | start c)) ->
  starts_increasing chunks ->
  forall (i : nat) c, chunks !! i = Some c -> Z.of_nat i * step <= start c.
Proof.
  intros Hstep Hdiv Hinc. induction i as [|i IH]; intros c Hi.
  - destruct (Hdiv _ _ Hi). lia.
  - destruct (lookup_lt_is_Some_2 chunks i) as [ci Hci];
      [apply lookup_lt_Some in Hi; lia|].
    pose proof (IH ci Hci) as Hlow.
    pose proof (Hinc i (Datatypes.S i) ci c Hci Hi ltac:(lia)) as Hlt.
    destruct (Hdiv _ _ Hci) as [_ [k Hk]].
    destruct (Hdiv _ _ Hi) as [_ [k' Hk']].
    rewrite Hk in Hlow, Hlt. rewrite Hk' in Hlt |- *.
    assert (Hkk : k + 1 <= k') by nia.
    rewrite Nat2Z.inj_succ.
    assert (Hm : (k + 1) * step <= k' * step)
      by (apply Z.mul_le_mono_nonneg_r; lia).
    lia.
Qed.

(** X18: for [0 <= overlap < chunk_size], the chunks start at multiples of
    the step [chunk_size - overlap], each later than the one before; so
    [n] chunks need a source longer than [(n - 1)] steps. *)
Theorem chunk_text_starts_regular source chunk_size overlap fuel :
  0 <= overlap < chunk_size ->
  (String.length source <= fuel)%nat ->
  exists chunks,
    chunk_text fuel source chunk_size overlap = Some chunks /\
    (forall (i : nat) c, chunks !! i = Some c ->
        (chunk_size - overlap | start c) /\
        Z.of_nat i * (chunk_size - overlap) <= start c) /\
    starts_increasing chunks /\
    (Z.of_nat (length chunks) - 1) * (chunk_size - overlap) < len source.
Proof.
  intros Hpre Hfuel.
  destruct (chunk_text_inv source chunk_size overlap fuel Hpre Hfuel)
    as (chunks & Hrun & Hok & Hinc).
  assert (Hlow : forall (i : nat) c, chunks !! i = Some c ->
                   Z.of_nat i * (chunk_size - overlap) <= start c).
  { apply starts_lower_bound; [lia| |exact Hinc].
    intros i c Hi. destruct (Hok i c Hi) as (_ & Hs & Hd & _).
    split; [lia|exact Hd]. }
  exists chunks. split; [exact Hrun|]. split; [|split; [exact Hinc|]].
  - intros i c Hi. split; [|now apply Hlow].
    now destruct (Hok i c Hi) as (_ & _ & Hd & _).
  - destruct chunks as [|c0 rest] eqn:E.
    + cbn [length]. pose proof (len_nonneg source). lia.
    + rewrite <- E in *.
      destruct (lookup_lt_is_Some_2 chunks (length chunks - 1)) as [c Hc];
        [rewrite E; cbn [length]; lia|].
      pose proof (Hlow _ _ Hc) as H1.
      destruct (Hok _ _ Hc) as (_ & Hs & _).
      assert (Hn : (1 <= length chunks)%nat) by (rewrite E; cbn [length]; lia).
      replace (Z.of_nat (length chunks) - 1)
        with (Z.of_nat (length chunks - 1)) by lia.
      lia.
Qed.

Lemma chunk_text_starts_regular_witness :
  exists chunks,
    chunk_text 19 "hello world foo bar" 8 2 = Some chunks /\
    (forall (i : nat) c, chunks !! i = Some c ->
        (8 - 2 | start c) /\ Z.of_nat i * (8 - 2) <= start c) /\
    starts_increasing chunks /\
    (Z.of_nat (length chunks) - 1) * (8 - 2) < len "hello world foo bar".
Proof.
  apply (chunk_text_starts_regular "hello world foo bar" 8 2 19);
    [lia | vm_compute; lia].
Defined.

Lemma substring_0_all s : substring 0 (String.length s) s = s.
Proof.
  induction s as [|c r IH]; [reflexivity|].
  cbn [String.length substring]. now rewrite IH.
Qed.

Lemma slice_whole s hi : len s <= hi -> slice s 0 hi = s.
Proof.
  intros H. pose proof (len_nonneg s). unfold slice, norm_index.
  replace (0 <? 0) with false by reflexivity.
  replace (hi <? 0) with false by (symmetry; apply Z.ltb_ge; lia).
  rewrite Z.min_l, Z.min_r by lia. rewrite Z.sub_0_r.
  unfold len. rewrite Nat2Z.id. apply substring_0_all.
Qed.

(** X19: a source that is not blank and no longer than one step
    [chunk_size - overlap] gives exactly one chunk: the stripped source,
    with id 0, start 0 and end [chunk_size], which may lie beyond the end
    of the source. *)
Theorem chunk_text_short_source source chunk_size overlap fuel :
  0 <= overlap ->
  len source <= chunk_size - overlap ->
  strip source <> EmptyString ->
  (1 <= fuel)%nat ->
  chunk_text fuel source chunk_size overlap
  = Some [ mkChunk (strip source) 0 0 chunk_size ].
Proof.
  intros Hov Hlen Hne Hfuel. unfold chunk_text.
  assert (Ht : source <> EmptyString) by (intros ->; now apply Hne).
  rewrite (ChunkingSpec.is_empty_false _ Ht),
    (ChunkingSpec.is_empty_false _ Hne). cbn [orb].
  pose proof (ChunkingSpec.len_pos_nonempty _ Ht) as Hpos.
  destruct fuel as [|fuel]; [lia|]. cbn [chunk_while].
  replace (0 <? len source) with true by (symmetry; apply Z.ltb_lt; lia).
  assert (Hstop : snap_end source 0 (0 + chunk_size) = chunk_size).
  { unfold snap_end. rewrite Z.add_0_l.
    now replace (chunk_size <? len source) with false
      by (symmetry; apply Z.ltb_ge; lia). }
  rewrite Hstop, slice_whole by lia.
  rewrite (ChunkingSpec.is_empty_false _ Hne). cbn [negb app].
  rewrite Z.add_0_l.
  destruct fuel; cbn [chunk_while];
    now replace (chunk_size - overlap <? len source) with false
      by (symmetry; apply Z.ltb_ge; lia).
Qed.

Lemma chunk_text_short_source_witness :
  chunk_text 1 " A short note. " 600 100
  = Some [ mkChunk "A short note." 0 0 600 ].
Proof.
  rewrite (chunk_text_short_source " A short note. " 600 100 1);
    [reflexivity | lia | vm_compute; discriminate | vm_compute; discriminate
    | lia].
Defined.

(** X20: a source that is empty or made of white space only gives the
    empty list at once, for every chunk size and overlap, also those for
    which the loop would never end. *)
Theorem chunk_text_blank_source source chunk_size overlap :
  all_space source = true ->
  chunk_text 0 source chunk_size overlap = Some [].
Proof. apply ChunkingSpec.chunk_text_blank. Qed.

Lemma chunk_text_blank_source_witness :
  chunk_text 0 (" " +:+ nl +:+ " ") 5 7 = Some [].
Proof. apply chunk_text_blank_source. reflexivity. Defined.

End ChunkingMore.

(* ===================================================================== *)
(** ** The retriever                                                      *)
(* ===================================================================== *)

Module RetrievalMore.
Import PyStr PyStrMore Retrieval Reference.

Lemma py_index_valid {A} (l : list A) i :
  0 <= i < Z.of_nat (length l) -> exists x, py_index l i = Some x.
Proof.
  intros H. unfold py_index.
  replace ((0 <=? i) && (i <? Z.of_nat (length l))) with true
    by (symmetry; apply andb_true_intro; split;
        [apply Z.leb_le|apply Z.ltb_lt]; lia).
  apply lookup_lt_is_Some_2. lia.
Qed.

(** The loop of [find_top_chunks] on rows whose ids are the sentinel -1 or
    positions of the chunk list. *)
Lemma find_loop_valid chunk_list rows : forall rank0 found0,
  (forall d i, (d, i) ∈ rows -> i = -1 \/ 0 <= i < Z.of_nat (length chunk_list)) ->
  exists new,
    find_loop chunk_list rank0 rows found0 = Some (found0 ++ new)%list /\
    length new = length (List.filter (fun r => negb (snd r =? -1)) rows) /\
    (forall (n : nat) f, new !! n = Some f ->
       exists (j : nat) i,
         rows !! j = Some (score f, i) /\ i <> -1 /\
         rank f = rank0 + Z.of_nat j + 1 /\
         py_index chunk_list i = Some (chunk f) /\
         warning f = (if Qgtb (score f) DISTANCE_THRESHOLD
                      then Some "Low similarity - might not be relevant"
                      else None)) /\
    (forall (n m : nat) f g,
       new !! n = Some f -> new !! m = Some g -> (n < m)%nat ->
       rank f < rank g).
Proof.
  induction rows as [|[d i] rows IH]; intros rank0 found0 Hvalid;
    cbn [find_loop].
  - exists []. rewrite app_nil_r. split; [reflexivity|].
    split; [reflexivity|]. split; intros; discriminate.
  - assert (Hrest : forall d' i', (d', i') ∈ rows ->
               i' = -1 \/ 0 <= i' < Z.of_nat (length chunk_list))
      by (intros d' i' H; apply (Hvalid d' i'); now right).
    cbn [List.filter snd].
    destruct (i =? -1) eqn:Hi; cbn [negb].
    + destruct (IH (rank0 + 1) found0 Hrest) as (new & -> & Hlen & Hit & Hinc).
      exists new. split; [reflexivity|]. split; [exact Hlen|].
      split; [|exact Hinc].
      intros n f Hn. destruct (Hit n f Hn) as (j & i' & Hj & Hne & Hr & Hrest').
      exists (Datatypes.S j), i'. split; [exact Hj|]. split; [exact Hne|].
      split; [lia|exact Hrest'].
    + apply Z.eqb_neq in Hi.
      destruct (Hvalid d i) as [?|Hrange]; [now left|contradiction|].
      destruct (py_index_valid chunk_list i Hrange) as [c Hc]. rewrite Hc.
      set (item := mkFound c d (rank0 + 1) _).
      destruct (IH (rank0 + 1) (found0 ++ [item])%list Hrest)
        as (new & -> & Hlen & Hit & Hinc).
      exists (item :: new). split; [now rewrite <- app_assoc|].
      split; [cbn [length]; now rewrite Hlen|].
      assert (Hlow : forall (n : nat) f, new !! n = Some f -> rank0 + 1 < rank f).
      { intros n f Hn. destruct (Hit n f Hn) as (j & _ & _ & _ & Hr & _). lia. }
      split.
      * intros [|n] f Hn.
        -- injection Hn as <-. exists 0%nat, i.
           unfold item. cbn [score rank chunk warning].
           split; [reflexivity|]. split; [exact Hi|]. split; [lia|].
           split; [exact Hc|reflexivity].
        -- destruct (Hit n f Hn) as (j & i' & Hj & Hne & Hr & Hrest').
           exists (Datatypes.S j), i'. split; [exact Hj|]. split; [exact Hne|].
           split; [lia|exact Hrest'].
      * intros [|n] [|m] f g Hn Hm Hnm; try lia.
        -- injection Hn as <-. cbn [rank]. exact (Hlow m g Hm).
        -- apply (Hinc n m f g Hn Hm). lia.
Qed.

(** X21: when the index returns, as ids, only the sentinel -1 or positions
    of the chunk list, [find_top_chunks] returns one item per row that is
    not a sentinel, in the order of the rows.  An item's rank is the
    1-based position of its row (sentinel rows are counted, so ranks can
    have gaps), its score and chunk are those of the row, and it carries
    the warning exactly when its distance is above 1.5. *)
Theorem find_top_chunks_valid_rows search query chunk_list top_k :
  let rows := search query (Z.min top_k (Z.of_nat (length chunk_list))) in
  (forall d i, (d, i) ∈ rows -> i = -1 \/ 0 <= i < Z.of_nat (length chunk_list)) ->
  exists found,
    find_top_chunks search query chunk_list top_k = Some found /\
    length found = length (List.filter (fun r => negb (snd r =? -1)) rows) /\
    (forall (n : nat) f, found !! n = Some f ->
       exists i,
         1 <= rank f <= Z.of_nat (length rows) /\
         rows !! Z.to_nat (rank f - 1) = Some (score f, i) /\
         0 <= i /\ chunk_list !! Z.to_nat i = Some (chunk f) /\
         (warning f = None <-> (score f <= DISTANCE_THRESHOLD)%Q) /\
         (warning f <> None ->
          warning f = Some "Low similarity - might not be relevant")) /\
    (forall (n m : nat) f g,
       found !! n = Some f -> found !! m = Some g -> (n < m)%nat ->
       rank f < rank g).
Proof.
  intros rows Hvalid. unfold find_top_chunks. fold rows.
  destruct (find_loop_valid chunk_list rows 0 [] Hvalid)
    as (new & Hrun & Hlen & Hit & Hinc).
  exists new. split; [exact Hrun|]. split; [exact Hlen|]. split; [|exact Hinc].
  intros n f Hn. destruct (Hit n f Hn) as (j & i & Hj & Hne & Hr & Hc & Hw).
  exists i. pose proof (lookup_lt_Some _ _ _ Hj) as Hjlt.
  assert (Hrange : 0 <= i < Z.of_nat (length chunk_list)).
  { destruct (Hvalid (score f) i) as [?|?]; [|contradiction|assumption].
    eapply list_elem_of_lookup_2. exact Hj. }
  split; [lia|]. split; [now replace (Z.to_nat (rank f - 1)) with j by lia|].
  split; [lia|]. split.
  - unfold py_index in Hc.
    replace ((0 <=? i) && (i <? Z.of_nat (length chunk_list))) with true in Hc
      by (symmetry; apply andb_true_intro; split;
          [apply Z.leb_le|apply Z.ltb_lt]; lia).
    exact Hc.
  - rewrite Hw. unfold Qgtb.
    destruct (Qle_bool (score f) DISTANCE_THRESHOLD) eqn:E; cbn [negb].
    + apply Qle_bool_iff in E. split; [tauto|congruence].
    + split; [|reflexivity]. split; [discriminate|].
      intros Hle. apply Qle_bool_iff in Hle. congruence.
Qed.

Lemma find_top_chunks_valid_rows_witness :
  exists found,
    find_top_chunks (fun _ _ => [(1 # 2, 1); (2 # 1, -1); (7 # 4, 0)])
      "What is the methodology?"
      [ Chunking.mkChunk "aaa" 0 0 3; Chunking.mkChunk "bbb" 1 2 5 ] 3
    = Some found /\
    length found = 2%nat.
Proof.
  destruct (find_top_chunks_valid_rows
              (fun _ _ => [(1 # 2, 1); (2 # 1, -1); (7 # 4, 0)])
              "What is the methodology?"
              [ Chunking.mkChunk "aaa" 0 0 3; Chunking.mkChunk "bbb" 1 2 5 ] 3)
    as (found & Hrun & Hlen & _).
  - cbn beta. intros d i Hin.
    repeat (apply elem_of_cons in Hin as [[= -> ->]|Hin]; [cbn; lia|]).
    now apply elem_of_nil in Hin.
  - exists found. split; [exact Hrun|exact Hlen].
Defined.

Lemma find_loop_index_error chunk_list rows : forall rank0 found0 d i,
  (d, i) ∈ rows -> i <> -1 -> py_index chunk_list i = None ->
  find_loop chunk_list rank0 rows found0 = None.
Proof.
  induction rows as [|[d0 i0] rows IH]; intros rank0 found0 d i Hin Hi Hidx;
    [now apply elem_of_nil in Hin|].
  cbn [find_loop]. apply elem_of_cons in Hin as [[= <- <-]|Hin].
  - apply Z.eqb_neq in Hi. now rewrite Hi, Hidx.
  - destruct (i0 =? -1); [now apply (IH _ _ d i)|].
    destruct (py_index chunk_list i0); [now apply (IH _ _ d i)|reflexivity].
Qed.

(** X22: a row whose id is not the sentinel and lies outside the chunk
    list (at or beyond its length, or below minus its length) makes the
    whole call fail with an index error: no partial result comes back. *)
Theorem find_top_chunks_index_error search query chunk_list top_k d i :
  (d, i) ∈ search query (Z.min top_k (Z.of_nat (length chunk_list))) ->
  i <> -1 ->
  Z.of_nat (length chunk_list) <= i \/ i < - Z.of_nat (length chunk_list) ->
  find_top_chunks search query chunk_list top_k = None.
Proof.
  intros Hin Hne Hout. unfold find_top_chunks.
  apply (find_loop_index_error _ _ _ _ d i Hin); [exact Hne|].
  unfold py_index.
  replace ((0 <=? i) && (i <? Z.of_nat (length chunk_list))) with false.
  - replace ((- Z.of_nat (length chunk_list) <=? i) && (i <? 0)) with false;
      [reflexivity|].
    symmetry. apply andb_false_iff.
    destruct Hout; [right; apply Z.ltb_ge|left; apply Z.leb_gt]; lia.
  - symmetry. apply andb_false_iff.
    destruct Hout; [right; apply Z.ltb_ge|left; apply Z.leb_gt]; lia.
Qed.

Lemma find_top_chunks_index_error_witness :
  find_top_chunks (fun _ _ => [(1 # 2, 0); (3 # 4, 5)]) "q"
    [ Chunking.mkChunk "aaa" 0 0 3; Chunking.mkChunk "bbb" 1 2 5 ] 2
  = None.
Proof.
  apply (find_top_chunks_index_error _ _ _ _ (3 # 4) 5).
  - cbn beta. apply elem_of_cons. right. apply elem_of_cons. now left.
  - lia.
  - cbn. lia.
Defined.

Lemma app_str_assoc a b c : (a +:+ b) +:+ c = a +:+ (b +:+ c).
Proof.
  induction a as [|x a IH]; [reflexivity|].
  change (String x ((a +:+ b) +:+ c) = String x (a +:+ (b +:+ c))).
  now rewrite IH.
Qed.

Lemma join_app sep (l1 l2 : list string) :
  l1 <> [] -> l2 <> [] ->
  join sep (l1 ++ l2) = join sep l1 +:+ sep +:+ join sep l2.
Proof.
  intros H1 H2. induction l1 as [|x l1 IH]; [congruence|].
  destruct l1 as [|y l1].
  - destruct l2 as [|z l2]; [congruence|]. reflexivity.
  - change (join sep ((x :: y :: l1) ++ l2))
      with (x +:+ sep +:+ join sep ((y :: l1) ++ l2)).
    rewrite IH by discriminate.
    change (join sep (x :: y :: l1)) with (x +:+ sep +:+ join sep (y :: l1)).
    now rewrite !app_str_assoc.
Qed.

(** X23: the context is built block by block, in the order of the
    results: the context of two result lists put together is their two
    contexts separated by a blank line.  Each result's block (its header,
    a line feed, the text of its chunk) is in the context. *)
Theorem build_context_blocks found1 found2 :
  found1 <> [] -> found2 <> [] ->
  build_context (found1 ++ found2)
  = build_context found1 +:+ (nl +:+ nl) +:+ build_context found2 /\
  forall (n : nat) r,
    (found1 ++ found2)%list !! n = Some r ->
    contains (header r +:+ nl +:+ Chunking.text (chunk r))
             (build_context (found1 ++ found2)) = true /\
    contains (Chunking.text (chunk r)) (build_context (found1 ++ found2)) = true.
Proof.
  intros H1 H2. split.
  - unfold build_context. rewrite map_app. apply join_app.
    + now destruct found1.
    + now destruct found2.
  - intros n r Hn.
    assert (Hb : contains (header r +:+ nl +:+ Chunking.text (chunk r))
                   (build_context (found1 ++ found2)) = true).
    { unfold build_context. apply AnswerMore.contains_join.
      apply list_elem_of_fmap. exists r. split; [reflexivity|].
      eapply list_elem_of_lookup_2. exact Hn. }
    split; [exact Hb|].
    eapply contains_trans; [|exact Hb].
    do 2 apply contains_app_r. apply AnswerMore.contains_self.
Qed.

Lemma build_context_blocks_witness :
  build_context
    ([ mkFound (Chunking.mkChunk "bbb" 1 2 5) (1 # 2) 1 None ]
     ++ [ mkFound (Chunking.mkChunk "aaa" 0 0 3) (7 # 4) 3
            (Some "Low similarity - might not be relevant") ])
  = "[Chunk 1, dist=0.5000]" +:+ nl +:+ "bbb" +:+ nl +:+ nl
    +:+ "[Chunk 3, dist=1.7500]" +:+ nl +:+ "aaa".
Proof.
  destruct (build_context_blocks
              [ mkFound (Chunking.mkChunk "bbb" 1 2 5) (1 # 2) 1 None ]
              [ mkFound (Chunking.mkChunk "aaa" 0 0 3) (7 # 4) 3
                  (Some "Low similarity - might not be relevant") ])
    as [-> _]; [discriminate | discriminate | reflexivity].
Defined.

End RetrievalMore.

(* ===================================================================== *)
(** ** The PDF loader                                                     *)
(* ===================================================================== *)

Module PdfLoaderMore.
Import PyStr PyStrMore PdfLoader Reference.

Lemma join_len sep l :
  len (join sep l)
  = total_len l + len sep * Z.max 0 (Z.of_nat (length l) - 1).
Proof.
  induction l as [|x l IH].
  - cbn [join total_len fold_right length]. change (len EmptyString) with 0.
    lia.
  - destruct l as [|y l];
      [cbn [join total_len fold_right length]; rewrite Z.max_l by lia; lia|].
    change (join sep (x :: y :: l)) with (x +:+ sep +:+ join sep (y :: l)).
    rewrite !len_app, IH.
    change (total_len (x :: y :: l)) with (len x + total_len (y :: l)).
    cbn [length]. rewrite !Z.max_r by lia. nia.
Qed.

(** X24: [load_pdf] keeps one entry per page, in order: the text of the
    page, or the empty string when the page gave none.  The full text is
    the pages joined by line feeds, so [num_chars] is the total length of
    the pages plus one per page after the first. *)
Theorem load_pdf_counts extracted :
  let info := load_pdf extracted in
  num_pages info = Z.of_nat (length extracted) /\
  length (pages info) = length extracted /\
  (forall (i : nat) txt,
      extracted !! i = Some txt -> pages info !! i = Some (text_or_empty txt)) /\
  text info = join nl (pages info) /\
  num_chars info = total_len (pages info) + Z.max 0 (num_pages info - 1).
Proof.
  unfold load_pdf. cbn [num_pages pages text num_chars].
  split; [reflexivity|]. split; [apply length_map|]. split.
  - intros i txt Hi. change (map text_or_empty extracted)
      with (text_or_empty <$> extracted).
    now rewrite list_lookup_fmap, Hi.
  - split; [reflexivity|]. rewrite join_len, length_map.
    change (len nl) with 1. lia.
Qed.

Lemma load_pdf_counts_witness :
  pages (load_pdf [ Some "Page one."; None; Some "Page three." ]) !! 1%nat
  = Some EmptyString.
Proof.
  apply (proj1 (proj2 (proj2 (load_pdf_counts
           [ Some "Page one."; None; Some "Page three." ]))) 1%nat None).
  reflexivity.
Defined.

End PdfLoaderMore.
